(** * Pixel Garden: the growth and rendering engine of [App]

    A shallow embedding of the engine of the Pixel Garden component
    (the [App] function of the source): the seed record, the per-frame
    callback [draw] with its growth step, pixel spawner and expiry test,
    [plantSeed], [clear] and [handleResize].

    Numbers.  A JavaScript number is a binary64 double, and every finite
    double is a rational.  Numbers are modelled by [Q]; the arithmetic
    operators are the exact ones, so the rounding of each operation is
    idealised away.  The code rounds after every operation: a sum of
    thousands of steps, or a product compared with its exact value, can
    differ from the model in the last digits.  Where a property follows a
    seed over many frames, or bounds a product of [drawPixel], it is
    therefore stated with inequalities, and where needed with a margin,
    that the rounded run satisfies as well; the module [Binary64] repeats
    the growth step on doubles and replays the runs where the two differ.
    [Math.random], [Math.sin], [Math.cos], [Math.PI] and the base-36
    printer of numbers are parameters of the development.

    Objects.  Seeds are JavaScript objects mutated in place by [draw]; they
    live in a store indexed by locations, and the population [seeds] is an
    array of locations.

    Left out: the markup, [exportPNG], the set-up and clean-up of the
    effect, and the scheduling of frames by [requestAnimationFrame]; a
    frame is an event like a click. *)

From Stdlib Require Import QArith Qround Qminmax Qabs Lqa ZArith Ascii String.
From Stdlib Require Import PrimFloat.
From stdpp Require Import gmap strings list.

Set Warnings "-inexact-float".

#[local] Open Scope Q_scope.

(** ** JavaScript number operations *)

Module Js.

(** [a < b] and [a > b] on numbers. *)
Definition lt (a b : Q) : bool := negb (Qle_bool b a).
Definition gt (a b : Q) : bool := lt b a.

(** Rounding toward zero. *)
Definition trunc (q : Q) : Z := Z.quot (Qnum q) (Zpos (Qden q)).

(** [a % n]: the remainder has the sign of the dividend [a]. *)
Definition rem (a n : Q) : Q := a - n * inject_Z (trunc (a / n)).

(** [Math.floor], [Math.min], [Math.max]. *)
Definition floor (q : Q) : Z := Qfloor q.
Definition min (a b : Q) : Q := Qmin a b.
Definition max (a b : Q) : Q := Qmax a b.

(** The mathematical modulo, with a result in [[0, n)] for [0 < n]. *)
Definition modulo (a n : Q) : Q := a - n * inject_Z (Qfloor (a / n)).

(** The digits of base 36. *)
Definition digit36 (d : Z) : Ascii.ascii :=
  match String.get (Z.to_nat d) "0123456789abcdefghijklmnopqrstuvwxyz" with
  | Some c => c
  | None => "?"%char
  end.

(** Base-36 expansion of a fraction in [[0, 1)], at most [n] digits; it
    stops when the remaining fraction is zero. *)
Fixpoint frac36 (n : nat) (q : Q) : string :=
  match n with
  | O => EmptyString
  | S n' =>
      if Qeq_bool q 0 then EmptyString
      else let d := Qfloor (q * 36) in
           String (digit36 d) (frac36 n' (q * 36 - inject_Z d))
  end.

(** The exact base-36 expansion of [0 <= q < 1]; a double in that range
    has at most 1074 binary digits, hence at most 537 digits in base 36.
    This is not [q.toString(36)]: an engine stops at the shortest digit
    string that identifies the double and rounds its last digit, so
    0.6388888888888888 prints as [0.n] while its expansion starts with
    [0.mzzzzzz].  What the engine prints is a parameter of the engine
    below; the expansion only stands in for it in the sample runs, on
    draws whose expansion is short or is cut well before its end. *)
Definition expansion36 (q : Q) : string :=
  if Qeq_bool q 0 then "0"%string
  else ("0." ++ frac36 537 q)%string.

Arguments frac36 : simpl never.
Arguments expansion36 : simpl never.

(** [str.slice(a, b)] for [0 <= a <= b]. *)
Definition slice (a b : nat) (str : string) : string :=
  String.substring a (b - a) str.

End Js.

(** ** The seed record

    [// Seed structure: { x, y, size, life, hueBase, id }] *)

Module Seed.
Record t : Type := mk
  { x : Q; y : Q; size : Q; life : Q; hueBase : Q; id : string }.

Definition set_life (v : Q) (s : t) : t :=
  {| x := x s; y := y s; size := size s; life := v;
     hueBase := hueBase s; id := id s |}.
Definition set_size (v : Q) (s : t) : t :=
  {| x := x s; y := y s; size := v; life := life s;
     hueBase := hueBase s; id := id s |}.
End Seed.

(** ** The growth step ([draw], the two assignments that open the loop body) *)

(** [s.life += 0.02 * speed] *)
Definition grow_life (speed : Q) (s : Seed.t) : Seed.t :=
  Seed.set_life (Seed.life s + 0.02 * speed) s.

(** [s.size += (0.3 * speed) * (1 - s.size / 150) * (s.life < 10 ? 1 : 0.1)];
    [s.life] is read after it has been advanced. *)
Definition grow_size (speed : Q) (s : Seed.t) : Seed.t :=
  Seed.set_size
    (Seed.size s
     + (0.3 * speed) * (1 - Seed.size s / 150)
       * (if Js.lt (Seed.life s) 10 then 1 else 0.1)) s.

Definition growth_step (speed : Q) (s : Seed.t) : Seed.t :=
  grow_size speed (grow_life speed s).

(** [s.life > 120 || s.size > 220] *)
Definition expired (s : Seed.t) : bool :=
  Js.gt (Seed.life s) 120 || Js.gt (Seed.size s) 220.

(** Successive growth steps, one per frame, at the speed of each frame. *)
Definition advance (s : Seed.t) (speeds : list Q) : Seed.t :=
  fold_left (fun s v => growth_step v s) speeds s.

(** The same two assignments and the same test on binary64 doubles, with
    the rounding of every operation. *)
Module Binary64.
Record seed : Type := mk { life : float; size : float }.

Definition growth_step (speed : float) (s : seed) : seed :=
  let life' := (life s + 0.02 * speed)%float in
  {| life := life';
     size := (size s
              + (0.3 * speed) * (1 - size s / 150)
                * (if life' <? 10 then 1 else 0.1))%float |}.

Definition expired (s : seed) : bool :=
  (120 <? life s)%float || (220 <? size s)%float.

(** [n] frames at one speed, up to and including the frame in which the
    seed expires. *)
Fixpoint lived (speed : float) (n : nat) (s : seed) : seed :=
  match n with
  | O => s
  | S n' =>
      let s' := growth_step speed s in
      if expired s' then s' else lived speed n' s'
  end.

(** None of the next [n] growth steps shrinks the seed, makes it younger or
    brings its size to 150. *)
Fixpoint steady (speed : float) (n : nat) (s : seed) : bool :=
  match n with
  | O => true
  | S n' =>
      let s' := growth_step speed s in
      (size s <=? size s')%float && (life s <=? life s')%float
      && (size s' <? 150)%float && steady speed n' s'
  end.

(** [Math.random() * 10 + 45] and
    [Math.min(1, 0.8 * (1 - dist / (s.size + 1))) * 0.9] of [drawPixel]. *)
Definition lightness (r : float) : float := (r * 10 + 45)%float.
Definition globalAlpha (dist size : float) : float :=
  let a := (0.8 * (1 - dist / (size + 1)))%float in
  ((if (a <? 1)%float then a else 1) * 0.9)%float.
End Binary64.

(** ** The pixel spawner ([draw], the inner loop) and [drawPixel] *)

(** [Math.floor((Math.random() + s.life * 0.05) * (speed * 0.5))] *)
Definition spawnCount (r life speed : Q) : Z :=
  Js.floor ((r + life * 0.05) * (speed * 0.5)).

(** [Math.random() * s.size * 0.9] *)
Definition spawn_dist (r size : Q) : Q := r * size * 0.9.

(** [Math.min(1, 0.8 * (1 - dist / (s.size + 1)))] *)
Definition spawn_alpha (dist size : Q) : Q :=
  Js.min 1 (0.8 * (1 - dist / (size + 1))).

(** [Math.max(1, brush * (0.3 + Math.random() * 0.8))], the [size] argument
    of [drawPixel]. *)
Definition spawn_size (brush r : Q) : Q :=
  Js.max 1 (brush * (0.3 + r * 0.8)).

(** [size * (0.35 + Math.random() * 0.85)], the radius given to [ctx.arc]
    in [drawPixel]. *)
Definition arc_radius (size r : Q) : Q := size * (0.35 + r * 0.85).

(** [Math.random() * 10 + 45], the lightness of the fill style. *)
Definition lightness (r : Q) : Q := r * 10 + 45.

(** ** The component state

    The React state of [App], the store of seed objects, the canvas element
    and what the environment has been asked so far. *)

(** Locations of the store. *)
Abbreviation loc := nat (only parsing).

(** Canvas operations, as [draw] and its helpers issue them. *)
Inductive cmd : Type :=
  (** [ctx.fillStyle = style; ctx.fillRect(x, y, w, h)] under [globalAlpha] *)
  | FillRect (style : string) (globalAlpha x y w h : Q)
  (** [drawGrid(ctx, w, h)] *)
  | Grid (w h : Q)
  (** [drawPixel]: a filled arc, [hsl(hue, 90%, light%)] *)
  | FillArc (x y radius hue light globalAlpha : Q)
  (** [drawRing]: a stroked arc, [hsl(hue, 85%, 55%)], line width 2 *)
  | StrokeArc (x y radius hue globalAlpha : Q).

(** The canvas element and its 2D context.  The DOM keeps [width] and
    [height] as integers; that conversion is not modelled, the numbers
    assigned are stored as they are. *)
Record canvas : Type := mkCanvas
  { clientWidth : Q; clientHeight : Q;      (* layout size of the element *)
    width : Q; height : Q;                  (* size of the backing buffer *)
    rect_left : Q; rect_top : Q;            (* getBoundingClientRect() *)
    transform : Q * Q * Q * Q * Q * Q }.    (* current transform of ctx *)

(** The state of the component and of its host.  The callbacks of the
    effect close over [running], [speed], [brush], [showGrid] and [seeds];
    the effect is set up again whenever one of them changes, so a callback
    always sees the current values, which are read here from the state. *)
Record world : Type := mkWorld
  { running : bool; speed : Q; brush : Q; showGrid : bool; paletteSeed : Q;
    seeds : list loc;                       (* the [seeds] array *)
    heap : gmap loc Seed.t;                 (* the seed objects *)
    next : loc;                             (* next unused location *)
    cv : canvas;
    devicePixelRatio : Q;
    rng : nat;                              (* draws of Math.random so far *)
    log : list cmd }.                       (* canvas operations, latest first *)

Definition set_running (b : bool) (w : world) : world :=
  mkWorld b (speed w) (brush w) (showGrid w) (paletteSeed w) (seeds w)
          (heap w) (next w) (cv w) (devicePixelRatio w) (rng w) (log w).
Definition set_speed (v : Q) (w : world) : world :=
  mkWorld (running w) v (brush w) (showGrid w) (paletteSeed w) (seeds w)
          (heap w) (next w) (cv w) (devicePixelRatio w) (rng w) (log w).
Definition set_brush (v : Q) (w : world) : world :=
  mkWorld (running w) (speed w) v (showGrid w) (paletteSeed w) (seeds w)
          (heap w) (next w) (cv w) (devicePixelRatio w) (rng w) (log w).
Definition set_showGrid (b : bool) (w : world) : world :=
  mkWorld (running w) (speed w) (brush w) b (paletteSeed w) (seeds w)
          (heap w) (next w) (cv w) (devicePixelRatio w) (rng w) (log w).
Definition set_paletteSeed (v : Q) (w : world) : world :=
  mkWorld (running w) (speed w) (brush w) (showGrid w) v (seeds w)
          (heap w) (next w) (cv w) (devicePixelRatio w) (rng w) (log w).
Definition set_seeds (l : list loc) (w : world) : world :=
  mkWorld (running w) (speed w) (brush w) (showGrid w) (paletteSeed w) l
          (heap w) (next w) (cv w) (devicePixelRatio w) (rng w) (log w).
Definition set_heap (h : gmap loc Seed.t) (w : world) : world :=
  mkWorld (running w) (speed w) (brush w) (showGrid w) (paletteSeed w)
          (seeds w) h (next w) (cv w) (devicePixelRatio w) (rng w) (log w).
Definition set_next (n : loc) (w : world) : world :=
  mkWorld (running w) (speed w) (brush w) (showGrid w) (paletteSeed w)
          (seeds w) (heap w) n (cv w) (devicePixelRatio w) (rng w) (log w).
Definition set_cv (c : canvas) (w : world) : world :=
  mkWorld (running w) (speed w) (brush w) (showGrid w) (paletteSeed w)
          (seeds w) (heap w) (next w) c (devicePixelRatio w) (rng w) (log w).
Definition set_rng (n : nat) (w : world) : world :=
  mkWorld (running w) (speed w) (brush w) (showGrid w) (paletteSeed w)
          (seeds w) (heap w) (next w) (cv w) (devicePixelRatio w) n (log w).
Definition set_log (l : list cmd) (w : world) : world :=
  mkWorld (running w) (speed w) (brush w) (showGrid w) (paletteSeed w)
          (seeds w) (heap w) (next w) (cv w) (devicePixelRatio w) (rng w) l.

(** ** A state monad with failure

    [None] stands for an uncaught [TypeError] (a property read on
    [undefined]). *)

Definition M (A : Type) : Type := world -> option (A * world).

Definition ret {A} (a : A) : M A := fun w => Some (a, w).
Definition bind {A B} (m : M A) (k : A -> M B) : M B :=
  fun w => match m w with
           | Some (a, w') => k a w'
           | None => None
           end.
Definition throw {A} : M A := fun _ => None.
Definition gets {A} (f : world -> A) : M A := fun w => Some (f w, w).
Definition modify (f : world -> world) : M unit := fun w => Some (tt, f w).

#[global] Instance M_ret : MRet M := @ret.
#[global] Instance M_bind : MBind M := fun A B k m => bind m k.

(** [if (c) body] *)
Definition when (c : bool) (body : M unit) : M unit :=
  if c then body else ret tt.

(** [seeds[i]]; a dereference of the result fails when [i] is out of range. *)
Definition seed_ref (i : nat) : M loc :=
  fun w => match seeds w !! i with
           | Some l => ret l w
           | None => throw w
           end.

(** Reading the object at [l]. *)
Definition deref (l : loc) : M Seed.t :=
  fun w => match heap w !! l with
           | Some s => ret s w
           | None => throw w
           end.

(** In-place update of the object at [l]. *)
Definition update (l : loc) (f : Seed.t -> Seed.t) : M unit :=
  s ← deref l; modify (fun w => set_heap (<[l := f s]> (heap w)) w).

(** [seeds.splice(i, 1)] *)
Definition splice (i : nat) : M unit :=
  modify (fun w => set_seeds (delete i (seeds w)) w).

(** [setSeeds(f)] *)
Definition setSeeds (f : list loc -> list loc) : M unit :=
  modify (fun w => set_seeds (f (seeds w)) w).

(** An operation on the canvas context. *)
Definition emit (c : cmd) : M unit :=
  modify (fun w => set_log (c :: log w) w).

(** ** The engine *)

Section Engine.

(** The host environment: the successive results of [Math.random()],
    [Math.sin], [Math.cos], [Math.PI], and [Number.prototype.toString]
    with radix 36, whose digits the language leaves to the engine. *)
Variable random : nat -> Q.
Variables Math_sin Math_cos : Q -> Q.
Variable Math_PI : Q.
Variable Number_toString36 : Q -> string.

Definition Math_random : M Q :=
  fun w => Some (random (rng w), set_rng (S (rng w)) w).

(** [useState(Math.random())] in the body of [App]: the argument is
    evaluated at every render, and its value is dropped at every render but
    the first.  [renders k] is [k] renders in a row; they only move the
    random source.  When and how often the component renders is decided by
    React, so the events of [handle] below do not include the renders that
    follow them: the position of a draw in the sequence is meaningful
    within one handler or one frame, and across handlers up to the renders
    in between. *)
Fixpoint renders (k : nat) : M unit :=
  match k with
  | O => ret tt
  | S k' => _ ← Math_random; renders k'
  end.

(** [(s.hueBase * 360 + (Math.sin(s.life + k) * 20)) % 360] *)
Definition spawn_hue (hueBase life : Q) (k : nat) : Q :=
  Js.rem (hueBase * 360 + Math_sin (life + inject_Z (Z.of_nat k)) * 20) 360.

(** [drawPixel(ctx, x, y, size, hue, alpha)] *)
Definition drawPixel (x y size hue alpha : Q) : M unit :=
  r1 ← Math_random;
  r2 ← Math_random;
  emit (FillArc x y (arc_radius size r2) hue (lightness r1) (alpha * 0.9)).

(** [drawRing(ctx, x, y, radius, hue, alpha)] *)
Definition drawRing (x y radius hue alpha : Q) : M unit :=
  emit (StrokeArc x y (Js.max 2 radius) hue alpha).

(** [drawGrid(ctx, w, h)]: lines every 40 units, recorded as one operation. *)
Definition drawGrid (w h : Q) : M unit := emit (Grid w h).

(** The body of [for (let k = 0; k < spawnCount; k++)]. *)
Definition spawn_pixel (l : loc) (k : nat) : M unit :=
  s ← deref l;
  ra ← Math_random;
  let angle := ra * Math_PI * 2 in
  rd ← Math_random;
  let dist := spawn_dist rd (Seed.size s) in
  let px := Seed.x s + Math_cos angle * dist in
  let py := Seed.y s + Math_sin angle * dist in
  let alpha := spawn_alpha dist (Seed.size s) in
  let hue := spawn_hue (Seed.hueBase s) (Seed.life s) k in
  rs ← Math_random;
  b ← gets brush;
  drawPixel px py (spawn_size b rs) hue alpha.

(** [n] more iterations of the inner loop, from index [k] on. *)
Fixpoint spawn_loop (n : nat) (l : loc) (k : nat) : M unit :=
  match n with
  | O => ret tt
  | S n' => spawn_pixel l k;; spawn_loop n' l (S k)
  end.

(** The body of [for (let i = seeds.length - 1; i >= 0; i--)]; the result
    tells whether the seed was spliced out. *)
Definition seed_iter (i : nat) : M bool :=
  l ← seed_ref i;
  v ← gets speed;
  update l (grow_life v);;
  update l (grow_size v);;
  s ← deref l;
  r ← Math_random;
  spawn_loop (Z.to_nat (spawnCount r (Seed.life s) v)) l 0;;
  r' ← Math_random;
  when (Js.lt r' (0.08 * v))
    (r'' ← Math_random;
     drawRing (Seed.x s) (Seed.y s) (Seed.size s * (0.9 + r'' * 0.4))
              (Seed.hueBase s * 360) 0.08);;
  s' ← deref l;
  if expired s' then splice i;; ret true else ret false.

(** The iterations for [i = n - 1] down to [0]; [updated] is the flag of
    the same name. *)
Fixpoint seeds_loop (n : nat) (updated : bool) : M bool :=
  match n with
  | O => ret updated
  | S i => u ← seed_iter i; seeds_loop i (u || updated)
  end.

(** The body of [for (let i = 0; i < 2 * speed; i++)]. *)
Definition star : M unit :=
  r ← Math_random;
  when (Js.lt r 0.05)
    (rx ← Math_random;
     ry ← Math_random;
     ra ← Math_random;
     c ← gets cv;
     emit (FillRect "#0ea5e9" (ra * 0.08)
                    (rx * clientWidth c) (ry * clientHeight c) 1 1)).

Fixpoint stars (n : nat) : M unit :=
  match n with
  | O => ret tt
  | S n' => star;; stars n'
  end.

(** [draw], one animation frame.  Scheduling the next frame is left to
    the caller. *)
Definition draw : M unit :=
  r ← gets running;
  if negb r then ret tt else
    c ← gets cv;
    emit (FillRect "rgba(3,6,12,0.12)" 1 0 0 (clientWidth c) (clientHeight c));;
    g ← gets showGrid;
    when g (drawGrid (clientWidth c) (clientHeight c));;
    n ← gets (fun w => length (seeds w));
    updated ← seeds_loop n false;
    v ← gets speed;
    stars (Z.to_nat (Qceiling (2 * v)));;
    when updated (setSeeds (fun s => s)).   (* setSeeds([...seeds]) *)

(** The object literal of [plantSeed]; [r1], [r2], [r3] are its three
    calls to [Math.random()], in evaluation order. *)
Definition new_seed (x y palette r1 r2 r3 : Q) : Seed.t :=
  {| Seed.x := x;
     Seed.y := y;
     Seed.size := 2 + r1 * 6;
     Seed.life := 0;
     Seed.hueBase := Js.rem (palette + r2 * 0.6) 1;
     Seed.id := Js.slice 2 9 (Number_toString36 r3) |}.

(** A fresh object. *)
Definition alloc (s : Seed.t) : M loc :=
  fun w => Some (next w,
                 set_next (S (next w)) (set_heap (<[next w := s]> (heap w)) w)).

(** [plantSeed(clientX, clientY)] *)
Definition plantSeed (clientX clientY : Q) : M unit :=
  c ← gets cv;
  let x := clientX - rect_left c in
  let y := clientY - rect_top c in
  r1 ← Math_random;
  p ← gets paletteSeed;
  r2 ← Math_random;
  r3 ← Math_random;
  l ← alloc (new_seed x y p r1 r2 r3);
  setSeeds (fun s => l :: s).

(** [clear] *)
Definition clear : M unit :=
  c ← gets cv;
  emit (FillRect "#03060c" 1 0 0 (clientWidth c) (clientHeight c));;
  setSeeds (fun _ => []).

(** [handleResize] *)
Definition resized (dpr : Q) (c : canvas) : canvas :=
  {| clientWidth := clientWidth c; clientHeight := clientHeight c;
     width := clientWidth c * dpr;
     height := clientHeight c * dpr;
     rect_left := rect_left c; rect_top := rect_top c;
     transform := (dpr, 0, 0, dpr, 0, 0) |}.

Definition handleResize : M unit :=
  modify (fun w => set_cv (resized (devicePixelRatio w) (cv w)) w).

(** The layout gives the element a new client size. *)
Definition layout (cw ch : Q) (c : canvas) : canvas :=
  {| clientWidth := cw; clientHeight := ch;
     width := width c; height := height c;
     rect_left := rect_left c; rect_top := rect_top c;
     transform := transform c |}.

(** The pause button: [setRunning(r => !r); if (!running) setRunning(true)] *)
Definition togglePause : M unit :=
  r ← gets running;
  modify (fun w => set_running (negb (running w)) w);;
  when (negb r) (modify (set_running true)).

(** What can happen to the component. *)
Inductive event : Type :=
  | Frame                              (* the animation callback fires *)
  | Plant (clientX clientY : Q)        (* mouse down or touch start *)
  | Clear
  | Resize (cw ch : Q)                 (* window resize *)
  | Pause
  | Palette
  | SetSpeed (v : Q)
  | SetBrush (v : Q)
  | SetShowGrid (b : bool).

Definition handle (e : event) : M unit :=
  match e with
  | Frame => draw
  | Plant cx cy => plantSeed cx cy
  | Clear => clear
  | Resize cw ch =>
      modify (fun w => set_cv (layout cw ch (cv w)) w);; handleResize
  | Pause => togglePause
  | Palette => r ← Math_random; modify (set_paletteSeed r)
  | SetSpeed v => modify (set_speed v)
  | SetBrush v => modify (set_brush v)
  | SetShowGrid b => modify (set_showGrid b)
  end.

Fixpoint run (es : list event) : M unit :=
  match es with
  | [] => ret tt
  | e :: es' => handle e;; run es'
  end.

(** ** The rest of the component *)

(** The pointer event given to [handleCanvasDown]: [e.touches] is absent on
    a mouse event and is the list of touch points on a touch event. *)
Record pointer_event : Type := mkPointer
  { touches : option (list (Q * Q));
    ev_clientX : Q;
    ev_clientY : Q }.

(** [handleCanvasDown]:
    [e.touches ? e.touches[0].clientX : e.clientX], the same for [clientY],
    then [plantSeed].  Reading [clientX] of a missing first touch fails. *)
Definition handleCanvasDown (e : pointer_event) : M unit :=
  match touches e with
  | Some ts =>
      match ts !! 0%nat with
      | Some (tx, ty) => plantSeed tx ty
      | None => throw
      end
  | None => plantSeed (ev_clientX e) (ev_clientY e)
  end.

(** [drawGrid]: the values taken by the loop variable of
    [for (let x = 0; x < w; x += step)] with [step = 40], in at most [fuel]
    iterations. *)
Fixpoint grid_marks (fuel : nat) (x w : Q) : list Q :=
  match fuel with
  | O => []
  | S fuel' => if Js.lt x w then x :: grid_marks fuel' (x + 40) w else []
  end.

(** A stroked segment, [moveTo(x1, y1); lineTo(x2, y2); stroke()]. *)
Inductive segment : Type := Segment (x1 y1 x2 y2 : Q).

(** The segments of [drawGrid(ctx, w, h)], which [Grid w h] stands for:
    the vertical ones, then the horizontal ones. *)
Definition grid_segments (fuel : nat) (w h : Q) : list segment :=
  map (fun x => Segment x 0 x h) (grid_marks fuel 0 w)
  ++ map (fun y => Segment 0 y w y) (grid_marks fuel 0 h).

(** ** Sample inputs

    A host and a few states on which the engine is run below. *)

(** Partial sums of the sine and cosine series, as reduced fractions; with
    16 terms they agree with [Math.sin] and [Math.cos] to six decimals on
    [[-8, 8]]. *)
Fixpoint series (n : nat) (x2 term : Q) (k : Z) : Q :=
  match n with
  | O => 0
  | S n' =>
      let term' := Qred (- term * x2 / inject_Z ((k + 1) * (k + 2))) in
      Qred (term + series n' x2 term' (k + 2))
  end.
Definition sin_approx (x : Q) : Q := series 16 (Qred (x * x)) (Qred x) 1.
Definition cos_approx (x : Q) : Q := series 16 (Qred (x * x)) 1 0.

(** [Math.PI], the double 3.141592653589793. *)
Definition sample_PI : Q := 3141592653589793 # 1000000000000000.

(** A generator that always returns 0.125. *)
Definition eighths : nat -> Q := fun _ => 1 # 8.

(** A generator that returns 0 first, then 0.125. *)
Definition zero_then_eighths (n : nat) : Q :=
  match n with
  | 0%nat => 0
  | _ => 1 # 8
  end.

(** A generator whose third and seventh results differ, by [2^-51]: the
    third draws of two clicks with one render in between.  Both are
    doubles; in base 36 they are [0.i0000000038...] and
    [0.i000000001m...]. *)
Definition close_draws (n : nat) : Q :=
  match n with
  | 0%nat => 1 # 4
  | 1%nat => 3 # 4
  | 2%nat => (1 # 2) + (1 # 2 ^ 50)
  | 3%nat => 7 # 8
  | 4%nat => 1 # 8
  | 5%nat => 5 # 8
  | 6%nat => (1 # 2) + (1 # 2 ^ 51)
  | _ => 1 # 2
  end.

(** A 300 by 150 canvas at device pixel ratio 1, 10 from the left and 20
    from the top of the viewport. *)
Definition sample_canvas : canvas :=
  mkCanvas 300 150 300 150 10 20 (1, 0, 0, 1, 0, 0).

(** The component right after mounting: running, speed 1, brush 12. *)
Definition empty_garden : world :=
  mkWorld true 1 12 false (1 # 2) [] ∅ 0 sample_canvas 1 0 [].

(** A seed one frame from the end of its life, and a young one. *)
Definition old_seed : Seed.t := Seed.mk 40 40 100 119.99 0.05 "i".
Definition young_seed : Seed.t := Seed.mk 40 40 5 4.5 0.05 "r".

(** A running garden with these two seeds, speed 1 and the smallest brush. *)
Definition garden : world :=
  mkWorld true 1 2 false (1 # 2) [1%nat; 0%nat]
          (<[1%nat := young_seed]> (<[0%nat := old_seed]> ∅)) 2
          sample_canvas 1 0 [].

(** ** Notions used to state the properties *)

(** [w'] differs from [w] at most in the canvas operations issued and in
    the number of random draws made. *)
Definition quiet (w w' : world) : Prop :=
  w' = set_log (log w') (set_rng (rng w') w).

(** [w'] has the controls, the canvas element and the allocator of [w]. *)
Definition same_controls (w w' : world) : Prop :=
  running w' = running w /\ speed w' = speed w /\ brush w' = brush w /\
  showGrid w' = showGrid w /\ paletteSeed w' = paletteSeed w /\
  next w' = next w /\ cv w' = cv w /\
  devicePixelRatio w' = devicePixelRatio w.

(** The seed at [l] in the store [h] is still alive after a growth step at
    speed [v]. *)
Definition survives (v : Q) (h : gmap loc Seed.t) (l : loc) : bool :=
  match h !! l with
  | Some s => negb (expired (growth_step v s))
  | None => false
  end.

(** Well-formed states: the population holds no object twice, every member
    is allocated, and allocated objects lie below [next]. *)
Definition wf (w : world) : Prop :=
  NoDup (seeds w) /\
  Forall (fun l => is_Some (heap w !! l)) (seeds w) /\
  map_Forall (fun l _ => (l < next w)%nat) (heap w).

#[global] Instance wf_dec (w : world) : Decision (wf w).
Proof. unfold wf. apply _. Defined.

(** The operation issued by the iteration [k] of the inner loop for the
    seed [s], when [n] random draws have been made before it. *)
Definition pixel_cmd (s : Seed.t) (b : Q) (k n : nat) : cmd :=
  let angle := random n * Math_PI * 2 in
  let dist := spawn_dist (random (1 + n)) (Seed.size s) in
  FillArc (Seed.x s + Math_cos angle * dist)
          (Seed.y s + Math_sin angle * dist)
          (arc_radius (spawn_size b (random (2 + n))) (random (4 + n)))
          (spawn_hue (Seed.hueBase s) (Seed.life s) k)
          (lightness (random (3 + n)))
          (spawn_alpha dist (Seed.size s) * 0.9).

(** The state of a seed of the population after [n] running frames at
    speed [v]: one growth step per frame, up to and including the frame in
    which it expires. *)
Fixpoint lived (v : Q) (n : nat) (s : Seed.t) : Seed.t :=
  match n with
  | O => s
  | S n' =>
      let s' := growth_step v s in
      if expired s' then s' else lived v n' s'
  end.

(** Two states of one seed: same position, colour family and token. *)
Definition same_identity (s s' : Seed.t) : Prop :=
  Seed.x s' = Seed.x s /\ Seed.y s' = Seed.y s /\
  Seed.hueBase s' = Seed.hueBase s /\ Seed.id s' = Seed.id s.

(** A background dot as [draw] plots it on the canvas [c]. *)
Definition star_cmd (c : canvas) (op : cmd) : Prop :=
  match op with
  | FillRect style a x y w h =>
      style = "#0ea5e9"%string /\
      0 <= a /\ a < 0.08 /\
      0 <= x /\ x <= clientWidth c /\
      0 <= y /\ y <= clientHeight c /\
      w = 1 /\ h = 1
  | _ => False
  end.

(** The multiples of 40 from [40 * k] on, [n] of them. *)
Definition multiples_of_40 (k n : nat) : list Q :=
  map (fun i => 40 * inject_Z (Z.of_nat i)) (seq k n).

(** ** Facts about numbers *)

Lemma Js_lt_iff (a b : Q) : Js.lt a b = true <-> a < b.
Proof.
  unfold Js.lt. rewrite negb_true_iff, <- not_true_iff_false, Qle_bool_iff.
  split; [apply Qnot_le_lt | apply Qlt_not_le].
Qed.

Lemma Js_lt_false_iff (a b : Q) : Js.lt a b = false <-> b <= a.
Proof.
  unfold Js.lt. rewrite negb_false_iff. apply Qle_bool_iff.
Qed.

Lemma Js_gt_iff (a b : Q) : Js.gt a b = true <-> b < a.
Proof. apply Js_lt_iff. Qed.

Lemma Js_gt_false_iff (a b : Q) : Js.gt a b = false <-> a <= b.
Proof. apply Js_lt_false_iff. Qed.

(** Division by the constants of the source, as a multiplication. *)
Ltac qconst :=
  unfold Qdiv in *;
  change (/ 150) with (1 # 150) in *;
  change (/ 360) with (1 # 360) in *.

(** The floor of a number is the integer [z] with [z <= q < z + 1]. *)
Lemma Qfloor_unique (z : Z) (q : Q) :
  inject_Z z <= q -> q < inject_Z (z + 1) -> Qfloor q = z.
Proof.
  intros Hlo Hhi.
  pose proof (Qfloor_le q) as H1. pose proof (Qlt_floor q) as H2.
  assert (inject_Z z < inject_Z (Qfloor q + 1)) as H3 by (eapply Qle_lt_trans; eauto).
  assert (inject_Z (Qfloor q) < inject_Z (z + 1)) as H4 by (eapply Qle_lt_trans; eauto).
  rewrite <- Zlt_Qlt in H3, H4. lia.
Qed.

(** Rounding toward zero agrees with the floor on non-negative numbers. *)
Lemma trunc_nonneg (q : Q) : 0 <= q -> Js.trunc q = Qfloor q.
Proof.
  intros H. unfold Js.trunc, Qfloor. destruct q as [n d]. simpl.
  assert (0 <= n)%Z.
  { unfold Qle in H. simpl in H. lia. }
  apply Z.quot_div_nonneg; lia.
Qed.

(** ... and gives zero on the numbers in [(-1, 0]]. *)
Lemma trunc_small_neg (q : Q) : -1 < q -> q <= 0 -> Js.trunc q = 0%Z.
Proof.
  intros H1 H2. unfold Js.trunc. destruct q as [n d]. simpl.
  unfold Qlt, Qle in *. simpl in *.
  apply Z.quot_small_iff; [lia |].
  rewrite Z.abs_neq by lia. rewrite Z.abs_eq by lia. lia.
Qed.

(** ** The growth step *)

Lemma growth_step_life (v : Q) (s : Seed.t) :
  Seed.life (growth_step v s) = Seed.life s + 0.02 * v.
Proof. reflexivity. Qed.

Lemma growth_step_size (v : Q) (s : Seed.t) :
  Seed.size (growth_step v s) =
  Seed.size s + (0.3 * v) * (1 - Seed.size s / 150)
                * (if Js.lt (Seed.life s + 0.02 * v) 10 then 1 else 0.1).
Proof. reflexivity. Qed.

(** The growth step touches neither the position, the hue nor the token. *)
Lemma growth_step_frame (v : Q) (s : Seed.t) :
  Seed.x (growth_step v s) = Seed.x s /\
  Seed.y (growth_step v s) = Seed.y s /\
  Seed.hueBase (growth_step v s) = Seed.hueBase s /\
  Seed.id (growth_step v s) = Seed.id s.
Proof. repeat split. Qed.

(** The growth factor [(s.life < 10 ? 1 : 0.1)] is one of two constants. *)
Lemma growth_factor_cases (life : Q) :
  (life < 10 /\ Js.lt life 10 = true) \/ (10 <= life /\ Js.lt life 10 = false).
Proof.
  destruct (Js.lt life 10) eqn:E.
  - left. split; [by apply Js_lt_iff | done].
  - right. split; [by apply Js_lt_false_iff | done].
Qed.

(** C1, as amended: from [life = 0] and [size = 5], one growth step at speed 1
    gives [life = 0.02] and a size that is strictly above 5 and equal to
    the bound [5 + 0.3 * (1 - 5 / 150)], not strictly below it. *)
Theorem growth_step_from_5 (s : Seed.t) :
  Seed.life s == 0 -> Seed.size s == 5 ->
  Seed.life (growth_step 1 s) == 0.02 /\
  5 < Seed.size (growth_step 1 s) /\
  Seed.size (growth_step 1 s) == 5 + 0.3 * (1 - 5 / 150).
Proof.
  intros Hl Hs. rewrite growth_step_life, growth_step_size.
  destruct (growth_factor_cases (Seed.life s + 0.02 * 1)) as [[_ ->] | [H _]];
    [| lra].
  qconst. repeat split; lra.
Qed.







(** Below the ceiling, at the speeds of the slider, one step stays strictly
    below the ceiling. *)
Lemma growth_step_below_150 (v : Q) (s : Seed.t) :
  0 < v -> v <= 3 -> Seed.size s < 150 -> Seed.size (growth_step v s) < 150.
Proof.
  intros Hv Hv' Hs. rewrite growth_step_size.
  destruct (Js.lt (Seed.life s + 0.02 * v) 10); qconst; nra.
Qed.

Lemma advance_below_150 (vs : list Q) (s : Seed.t) :
  Forall (fun v => 0 < v /\ v <= 3) vs ->
  Seed.size s < 150 -> Seed.size (advance s vs) < 150.
Proof.
  revert s. induction vs as [| v vs IH]; intros s Hvs Hs; simpl; [done |].
  inversion Hvs as [| ? ? [Hv Hv'] Hvs']; subst.
  apply IH; [done |]. by apply growth_step_below_150.
Qed.

(** C10: a seed made by [plantSeed] and advanced at speeds in [(0, 3]] stays
    strictly below size 150, so [s.size > 220] is never true of it and it
    expires exactly when [s.life > 120]. *)
Theorem planted_seed_below_150
    (x y palette r1 r2 r3 : Q) (vs : list Q) :
  0 <= r1 -> r1 < 1 ->
  Forall (fun v => 0 < v /\ v <= 3) vs ->
  let s := advance (new_seed x y palette r1 r2 r3) vs in
  Seed.size s < 150 /\
  Js.gt (Seed.size s) 220 = false /\
  (expired s = true <-> 120 < Seed.life s).
Proof.
  intros Hr0 Hr1 Hvs s.
  assert (Seed.size s < 150) as H150.
  { apply advance_below_150; [done |]. simpl. lra. }
  assert (Js.gt (Seed.size s) 220 = false) as Hgt.
  { apply Js_gt_false_iff. lra. }
  repeat split; [done | done | |].
  - unfold expired. rewrite Hgt, orb_false_r. apply Js_gt_iff.
  - intros H. unfold expired. apply orb_true_iff. left. by apply Js_gt_iff.
Qed.

(** ** The pixel spawner *)

(** C4: for a seed of non-negative age, a positive speed and a draw in
    [[0, 1)], the spawn count is a non-negative integer. *)
Theorem spawnCount_nonneg (r life speed : Q) :
  0 <= life -> 0 < speed -> 0 <= r -> r < 1 ->
  (0 <= spawnCount r life speed)%Z.
Proof.
  intros Hl Hv Hr0 Hr1. unfold spawnCount, Js.floor.
  change 0%Z with (Qfloor 0). apply Qfloor_resp_le. nra.
Qed.

(** The distance of a spawned pixel lies within 0.9 of the seed size. *)
Lemma spawn_dist_range (r size : Q) :
  0 <= size -> 0 <= r -> r < 1 ->
  0 <= spawn_dist r size /\ spawn_dist r size <= 0.9 * size.
Proof. intros Hs Hr0 Hr1. unfold spawn_dist. split; nra. Qed.

(** C5: for a size of at least 0 (0 included) and a distance draw in
    [[0, 1)], the denominator [size + 1] is not zero and the alpha lies in
    [[0, 0.8]]. *)
Theorem spawn_alpha_range (r size : Q) :
  0 <= size -> 0 <= r -> r < 1 ->
  ~ size + 1 == 0 /\
  0 <= spawn_alpha (spawn_dist r size) size /\
  spawn_alpha (spawn_dist r size) size <= 0.8.
Proof.
  intros Hs Hr0 Hr1.
  destruct (spawn_dist_range r size Hs Hr0 Hr1) as [Hd0 Hd1].
  assert (0 < size + 1) as Hden by lra.
  split; [lra |].
  unfold spawn_alpha, Js.min.
  set (d := spawn_dist r size) in *.
  assert (0 <= d / (size + 1)) as Ht0.
  { apply Qle_shift_div_l; [done | lra]. }
  assert (d / (size + 1) <= 0.9) as Ht1.
  { apply Qle_shift_div_r; [done | lra]. }
  set (t := d / (size + 1)) in *.
  split.
  - apply Q.min_glb; lra.
  - eapply Qle_trans; [apply Q.le_min_r | lra].
Qed.


(** ... and the radius of the arc is that size scaled by a factor of at
    least 0.35. *)
Lemma arc_radius_ge (size r : Q) :
  1 <= size -> 0 <= r -> 0.35 <= arc_radius size r.
Proof. intros Hs Hr. unfold arc_radius. nra. Qed.

(** The mathematical modulo by 360 lies in [[0, 360)]. *)
Lemma modulo_360_range (a : Q) :
  0 <= Js.modulo a 360 /\ Js.modulo a 360 < 360.
Proof.
  unfold Js.modulo.
  pose proof (Qfloor_le (a / 360)) as H1.
  pose proof (Qlt_floor (a / 360)) as H2.
  rewrite inject_Z_plus in H2. change (inject_Z 1) with 1 in H2.
  set (f := inject_Z (Qfloor (a / 360))) in *.
  qconst. split; lra.
Qed.

(** [a % 360] on a non-negative [a] is the mathematical modulo. *)
Lemma rem_360_nonneg (a : Q) : 0 <= a -> Js.rem a 360 = Js.modulo a 360.
Proof.
  intros Ha. unfold Js.rem, Js.modulo. rewrite trunc_nonneg; [done |].
  qconst. lra.
Qed.

(** [a % 360] on an [a] in [(-360, 0)] is [a] itself, 360 below the
    mathematical modulo. *)
Lemma rem_360_neg (a : Q) :
  -360 < a -> a < 0 ->
  Js.rem a 360 == a /\ Js.rem a 360 == Js.modulo a 360 - 360.
Proof.
  intros H1 H2. unfold Js.rem, Js.modulo.
  rewrite trunc_small_neg by (qconst; lra).
  assert (Qfloor (a / 360) = (-1)%Z) as ->.
  { apply Qfloor_unique.
    - change (inject_Z (-1)) with (-1). qconst. lra.
    - change (inject_Z (-1 + 1)) with 0. qconst. lra. }
  change (inject_Z 0) with 0. change (inject_Z (-1)) with (-1).
  split; lra.
Qed.

(** C7, as amended: the hue is the remainder of
    [h = hueBase * 360 + sin(life + k) * 20] with the sign of [h].  It lies
    in [[-20, 360)]; it is the mathematical modulo when [h >= 0], and is
    [h] itself, 360 below the mathematical modulo, when [h < 0]. *)
Theorem spawn_hue_spec (hueBase life : Q) (k : nat) :
  0 <= hueBase -> hueBase < 1 ->
  -1 <= Math_sin (life + inject_Z (Z.of_nat k)) ->
  Math_sin (life + inject_Z (Z.of_nat k)) <= 1 ->
  let h := hueBase * 360 + Math_sin (life + inject_Z (Z.of_nat k)) * 20 in
  let hue := spawn_hue hueBase life k in
  -20 <= hue /\ hue < 360 /\
  (0 <= h -> hue == Js.modulo h 360) /\
  (h < 0 -> hue == h /\ hue == Js.modulo h 360 - 360).
Proof.
  intros Hb0 Hb1 Hs0 Hs1 h hue. unfold hue, spawn_hue. fold h.
  assert (-20 <= h) as Hlo by (unfold h; lra).
  destruct (Qlt_le_dec h 0) as [Hneg | Hpos].
  - destruct (rem_360_neg h) as [E1 E2]; [lra | done |].
    repeat split; try lra; intros; lra.
  - rewrite (rem_360_nonneg h Hpos).
    pose proof (modulo_360_range h) as [M1 M2].
    repeat split; try lra; intros; lra.
Qed.

(** ** Running the monadic code *)

Lemma bind_Some {A B} (m : M A) (k : A -> M B) (w w' : world) (a : A) :
  m w = Some (a, w') -> (m ≫= k) w = k a w'.
Proof. intros H. unfold mbind, M_bind, bind. by rewrite H. Qed.

Lemma quiet_refl (w : world) : quiet w w.
Proof. by destruct w. Qed.

Lemma quiet_trans (w1 w2 w3 : world) : quiet w1 w2 -> quiet w2 w3 -> quiet w1 w3.
Proof.
  unfold quiet. intros H1 H2. rewrite H2 at 1. rewrite H1 at 1.
  by destruct w1.
Qed.

Lemma quiet_store (w w' : world) :
  quiet w w' -> seeds w' = seeds w /\ heap w' = heap w /\ same_controls w w'.
Proof. intros ->. by destruct w. Qed.

Lemma quiet_set_rng (n : nat) (w : world) : quiet w (set_rng n w).
Proof. by destruct w. Qed.

Lemma quiet_set_log (l : list cmd) (w : world) : quiet w (set_log l w).
Proof. by destruct w. Qed.

Lemma same_controls_refl (w : world) : same_controls w w.
Proof. by repeat split. Qed.

Lemma same_controls_trans (w1 w2 w3 : world) :
  same_controls w1 w2 -> same_controls w2 w3 -> same_controls w1 w3.
Proof using.
  clear. unfold same_controls.
  intros (? & ? & ? & ? & ? & ? & ? & ?) (? & ? & ? & ? & ? & ? & ? & ?).
  repeat split; congruence.
Qed.

(** One pass of the inner loop: five random draws, one filled arc. *)
Lemma spawn_pixel_spec (l : loc) (k : nat) (w : world) (s : Seed.t) :
  heap w !! l = Some s ->
  spawn_pixel l k w =
  Some (tt, set_log (pixel_cmd s (brush w) k (rng w) :: log w)
                    (set_rng (5 + rng w) w)).
Proof.
  intros H. unfold spawn_pixel.
  rewrite (bind_Some _ _ w w s) by (unfold deref; by rewrite H).
  reflexivity.
Qed.

Lemma spawn_loop_quiet (n : nat) (l : loc) (k : nat) (w : world) (s : Seed.t) :
  heap w !! l = Some s ->
  exists w', spawn_loop n l k w = Some (tt, w') /\ quiet w w'.
Proof.
  revert k w. induction n as [| n IH]; intros k w H; simpl.
  - exists w. split; [done | apply quiet_refl].
  - erewrite bind_Some by (by apply spawn_pixel_spec).
    destruct (IH (S k) (set_log (pixel_cmd s (brush w) k (rng w) :: log w)
                               (set_rng (5 + rng w) w))) as (w' & E & Q); [done |].
    exists w'. split; [done |].
    eapply quiet_trans; [| exact Q].
    eapply quiet_trans; [apply quiet_set_rng | apply quiet_set_log].
Qed.

Lemma update_spec (l : loc) (f : Seed.t -> Seed.t) (w : world) (s : Seed.t) :
  heap w !! l = Some s ->
  update l f w = Some (tt, set_heap (<[l := f s]> (heap w)) w).
Proof.
  intros H. unfold update.
  rewrite (bind_Some _ _ w w s) by (unfold deref; by rewrite H).
  reflexivity.
Qed.

Lemma deref_spec (l : loc) (w : world) (s : Seed.t) :
  heap w !! l = Some s -> deref l w = Some (s, w).
Proof. intros H. unfold deref. by rewrite H. Qed.

(** The ring pulse only draws. *)
Lemma ring_quiet (s : Seed.t) (v : Q) (w : world) :
  exists w',
    (r' ← Math_random;
     when (Js.lt r' (0.08 * v))
       (r'' ← Math_random;
        drawRing (Seed.x s) (Seed.y s) (Seed.size s * (0.9 + r'' * 0.4))
                 (Seed.hueBase s * 360) 0.08)) w = Some (tt, w') /\
    quiet w w'.
Proof.
  unfold mbind, M_bind, bind, Math_random, when. simpl.
  destruct (Js.lt _ _); simpl; eexists; (split; [reflexivity |]).
  - by destruct w.
  - by destruct w.
Qed.

(** One pass of the outer loop on the seed [s] stored at [seeds[i]]: the
    object is advanced by one growth step, and is spliced out exactly when
    it has then expired. *)
Lemma seed_iter_spec (i : nat) (w : world) (l : loc) (s : Seed.t) :
  seeds w !! i = Some l -> heap w !! l = Some s ->
  exists w',
    seed_iter i w = Some (expired (growth_step (speed w) s), w') /\
    seeds w' = (if expired (growth_step (speed w) s)
                then delete i (seeds w) else seeds w) /\
    heap w' = <[l := growth_step (speed w) s]> (heap w) /\
    same_controls w w'.
Proof.
  intros Hi Hl. unfold seed_iter.
  rewrite (bind_Some _ _ w w l) by (unfold seed_ref; by rewrite Hi).
  rewrite (bind_Some _ _ w w (speed w)) by reflexivity.
  erewrite bind_Some by (by apply update_spec).
  set (w1 := set_heap _ w).
  assert (heap w1 !! l = Some (grow_life (speed w) s)) as H1
      by (subst w1; destruct w; simpl; apply lookup_insert_eq).
  erewrite bind_Some by (by apply update_spec).
  set (w2 := set_heap _ w1).
  set (s' := growth_step (speed w) s).
  assert (heap w2 = <[l := s']> (heap w)) as H2.
  { subst w2 w1. destruct w; simpl. apply insert_insert_eq. }
  assert (heap w2 !! l = Some s') as H2' by (rewrite H2; apply lookup_insert_eq).
  assert (seeds w2 = seeds w /\ same_controls w w2) as [S2 C2]
      by (subst w2 w1; destruct w; by repeat split).
  erewrite bind_Some by (by apply deref_spec).
  rewrite (bind_Some _ _ w2 (set_rng (S (rng w2)) w2) (random (rng w2)))
    by reflexivity.
  set (w3 := set_rng _ w2).
  assert (quiet w2 w3) as Q3 by apply quiet_set_rng.
  destruct (spawn_loop_quiet
              (Z.to_nat (spawnCount (random (rng w2)) (Seed.life s') (speed w)))
              l 0 w3 s') as (w4 & E4 & Q4).
  { apply quiet_store in Q3 as (_ & -> & _). done. }
  rewrite (bind_Some _ _ w3 w4 tt) by exact E4.
  destruct (ring_quiet s' (speed w) w4) as (w5 & E5 & Q5).
  unfold mbind, M_bind in *.
  unfold bind at 1. unfold bind at 1.
  unfold bind at 1 in E5.
  destruct (Math_random w4) as [[r' w4'] |] eqn:ER; [| done].
  rewrite E5.
  assert (quiet w2 w5) as Q by (eauto using quiet_trans).
  apply quiet_store in Q as (S5 & H5 & C5).
  unfold bind at 1. rewrite (deref_spec l w5 s') by congruence.
  exists (if expired s' then set_seeds (delete i (seeds w5)) w5 else w5).
  assert (same_controls w w5) as C by (eauto using same_controls_trans).
  destruct (expired s'); simpl.
  - unfold bind, splice, modify, ret.
    split; [reflexivity |]. split; [destruct w5; simpl in *; congruence |].
    split; [destruct w5; simpl in *; congruence |].
    eapply same_controls_trans; [exact C | by destruct w5].
  - unfold ret.
    split; [reflexivity |]. split; [congruence |]. split; [congruence | done].
Qed.

Lemma filter_ext_elem {A} (P1 P2 : A -> Prop)
    `{!forall x, Decision (P1 x)} `{!forall x, Decision (P2 x)} (l : list A) :
  (forall x, x ∈ l -> P1 x <-> P2 x) -> filter P1 l = filter P2 l.
Proof.
  induction l as [| a l IH]; intros Hext; [done |].
  rewrite !filter_cons.
  rewrite IH by (intros x Hx; apply Hext; by right).
  apply decide_ext, Hext. by left.
Qed.

(** The position [i] of a duplicate-free array is not among the first [i]. *)
Lemma NoDup_not_in_take {A} (l : list A) (i : nat) (x : A) :
  NoDup l -> l !! i = Some x -> x ∉ take i l.
Proof.
  intros Hnd Hi Hin. apply elem_of_take in Hin as (j & Hj & Hlt).
  pose proof (NoDup_lookup l i j x Hnd Hi Hj). lia.
Qed.

Lemma survives_insert_ne (v : Q) (h : gmap loc Seed.t) (l l' : loc) (s : Seed.t) :
  l ≠ l' -> survives v (<[l := s]> h) l' = survives v h l'.
Proof. intros Hne. unfold survives. by rewrite lookup_insert_ne. Qed.

(** The iterations [i = n - 1 .. 0] of the outer loop: of the first [n]
    seeds those that survive their growth step remain, in order; the seeds
    from [n] on are not touched; every one of the first [n] objects has
    been advanced by one growth step. *)
Lemma seeds_loop_spec (n : nat) (u : bool) (w : world) :
  (n <= length (seeds w))%nat ->
  NoDup (seeds w) ->
  Forall (fun l => is_Some (heap w !! l)) (take n (seeds w)) ->
  exists u' w',
    seeds_loop n u w = Some (u', w') /\
    seeds w' = filter (fun l => survives (speed w) (heap w) l)
                      (take n (seeds w)) ++ drop n (seeds w) /\
    (forall l s, l ∈ take n (seeds w) -> heap w !! l = Some s ->
                 heap w' !! l = Some (growth_step (speed w) s)) /\
    (forall l, l ∉ take n (seeds w) -> heap w' !! l = heap w !! l) /\
    same_controls w w'.
Proof.
  revert u w. induction n as [| i IH]; intros u w Hlen Hnd Hall.
  - exists u, w. simpl. repeat split; try done.
    intros l s Hin. by apply elem_of_nil in Hin.
  - destruct (lookup_lt_is_Some_2 (seeds w) i) as [l Hi]; [lia |].
    rewrite (take_S_r _ _ _ Hi) in *.
    apply Forall_app in Hall as [Hall Hl].
    apply Forall_singleton in Hl as [s Hs].
    pose proof (NoDup_not_in_take _ _ _ Hnd Hi) as Hfresh.
    destruct (seed_iter_spec i w l s Hi Hs) as (w1 & E1 & S1 & H1 & C1).
    set (s' := growth_step (speed w) s) in *.
    assert (speed w1 = speed w) as Hv by apply C1.
    assert (take i (seeds w1) = take i (seeds w)) as Htake.
    { rewrite S1. destruct (expired s'); [| done].
      rewrite delete_take_drop. apply take_app_length'.
      rewrite length_take_le; lia. }
    assert (drop i (seeds w1)
            = (if expired s' then [] else [l]) ++ drop (S i) (seeds w)) as Hdrop.
    { rewrite S1. destruct (expired s'); simpl.
      - rewrite delete_take_drop. apply drop_app_length'.
        rewrite length_take_le; lia.
      - by apply drop_S. }
    destruct (IH (expired s' || u) w1) as (u' & w' & E & Hseeds & Ha & Hb & C).
    { rewrite S1. destruct (expired s'); [| lia].
      rewrite length_delete by eauto. lia. }
    { rewrite S1. destruct (expired s'); [| done].
      eapply sublist_NoDup; [exact Hnd | apply sublist_delete]. }
    { rewrite Htake, H1. eapply Forall_impl; [exact Hall |].
      intros l' Hl'. apply lookup_insert_is_Some.
      destruct (decide (l = l')); auto. }
    exists u', w'. split; [| split; [| split; [| split]]].
    + simpl. by erewrite bind_Some by exact E1.
    + rewrite Hseeds, Htake, Hdrop, Hv, H1, filter_app, <- app_assoc. f_equal.
      * apply filter_ext_elem. intros l' Hin.
        rewrite survives_insert_ne; [done |]. intros ->. contradiction.
      * f_equal. rewrite filter_cons, filter_nil.
        assert (survives (speed w) (heap w) l = negb (expired s')) as Hsv
            by (unfold survives; by rewrite Hs).
        destruct (decide _) as [Hd | Hd]; rewrite Hsv in Hd;
          by destruct (expired s').
    + intros l' s0 Hin Hs0. apply elem_of_app in Hin as [Hin | Hin].
      * rewrite Hv, Htake in Ha. apply Ha; [done |].
        rewrite H1, lookup_insert_ne; [done |]. intros ->. contradiction.
      * apply list_elem_of_singleton in Hin as ->.
        rewrite Hb by (by rewrite Htake).
        rewrite H1, lookup_insert_eq. rewrite Hs in Hs0.
        by injection Hs0 as <-.
    + intros l' Hnin. apply not_elem_of_app in Hnin as [Hnin Hne].
      rewrite Hb by (by rewrite Htake).
      rewrite H1. apply lookup_insert_ne. intros ->. apply Hne. by left.
    + eapply same_controls_trans; eauto.
Qed.

Lemma star_quiet (w : world) : exists w', star w = Some (tt, w') /\ quiet w w'.
Proof.
  unfold star, mbind, M_bind, bind, Math_random, when, gets, emit, modify.
  simpl. destruct (Js.lt _ _); simpl; eexists; (split; [reflexivity |]);
    by destruct w.
Qed.

Lemma stars_quiet (n : nat) (w : world) :
  exists w', stars n w = Some (tt, w') /\ quiet w w'.
Proof.
  revert w. induction n as [| n IH]; intros w; simpl.
  - exists w. split; [done | apply quiet_refl].
  - destruct (star_quiet w) as (w1 & E1 & Q1).
    destruct (IH w1) as (w2 & E2 & Q2).
    exists w2. split; [by erewrite bind_Some by exact E1 |].
    eauto using quiet_trans.
Qed.

(** A paused frame does nothing. *)
Lemma draw_paused (w : world) : running w = false -> draw w = Some (tt, w).
Proof.
  intros H. unfold draw.
  rewrite (bind_Some _ _ w w false) by (unfold gets; by rewrite H).
  reflexivity.
Qed.

(** A running frame: every seed of the population is advanced by one growth
    step, and the population keeps exactly those that survive it, in
    order.  Nothing else changes but the canvas. *)
Lemma draw_spec (w : world) :
  running w = true -> wf w ->
  exists w',
    draw w = Some (tt, w') /\
    seeds w' = filter (fun l => survives (speed w) (heap w) l) (seeds w) /\
    (forall l s, l ∈ seeds w -> heap w !! l = Some s ->
                 heap w' !! l = Some (growth_step (speed w) s)) /\
    (forall l, l ∉ seeds w -> heap w' !! l = heap w !! l) /\
    same_controls w w'.
Proof.
  intros Hrun (Hnd & Hall & _). unfold draw.
  rewrite (bind_Some _ _ w w true) by (unfold gets; by rewrite Hrun).
  change (negb true) with false. cbv iota.
  rewrite (bind_Some _ _ w w (cv w)) by reflexivity.
  set (fade := FillRect _ _ _ _ _ _).
  rewrite (bind_Some _ _ w (set_log (fade :: log w) w) tt) by reflexivity.
  set (w0 := set_log _ w).
  rewrite (bind_Some _ _ w0 w0 (showGrid w0)) by reflexivity.
  assert (exists w1, when (showGrid w0)
                          (drawGrid (clientWidth (cv w)) (clientHeight (cv w))) w0
                     = Some (tt, w1) /\ quiet w w1) as (w1 & E1 & Q1).
  { destruct (showGrid w0); simpl; eexists; (split; [reflexivity |]);
      subst w0; by destruct w. }
  rewrite (bind_Some _ _ w0 w1 tt) by exact E1.
  apply quiet_store in Q1 as (S1 & H1 & C1).
  rewrite (bind_Some _ _ w1 w1 (length (seeds w1))) by reflexivity.
  destruct (seeds_loop_spec (length (seeds w1)) false w1)
    as (u & w2 & E2 & S2 & Ha & Hb & C2).
  { lia. }
  { by rewrite S1. }
  { rewrite firstn_all, S1, H1. exact Hall. }
  rewrite firstn_all in *. rewrite drop_all, app_nil_r in S2.
  rewrite (bind_Some _ _ w1 w2 u) by exact E2.
  rewrite (bind_Some _ _ w2 w2 (speed w2)) by reflexivity.
  destruct (stars_quiet (Z.to_nat (Qceiling (2 * speed w2))) w2)
    as (w3 & E3 & Q3).
  rewrite (bind_Some _ _ w2 w3 tt) by exact E3.
  apply quiet_store in Q3 as (S3 & H3 & C3).
  assert (speed w1 = speed w) as Hv by apply C1.
  exists (if u then set_seeds (seeds w3) w3 else w3).
  split; [by destruct u |].
  assert (same_controls w w3) as C by (eauto using same_controls_trans).
  rewrite Hv, S1, H1 in *.
  destruct u; simpl.
  - split; [destruct w3; simpl in *; congruence |].
    split; [intros l s Hin Hs; destruct w3; simpl in *; rewrite H3; eauto |].
    split; [intros l Hin; destruct w3; simpl in *; rewrite H3; eauto |].
    eapply same_controls_trans; [exact C | by destruct w3].
  - split; [congruence |].
    split; [intros l s Hin Hs; rewrite H3; eauto |].
    split; [intros l Hin; rewrite H3; eauto | done].
Qed.

(** ** Well-formed states *)

Ltac setters :=
  unfold set_running, set_speed, set_brush, set_showGrid, set_paletteSeed,
         set_seeds, set_heap, set_next, set_cv, set_rng, set_log in *;
  simpl in *.

Lemma wf_fresh (w : world) : wf w -> next w ∉ seeds w.
Proof.
  intros (_ & Hall & Hlt) Hin.
  rewrite Forall_forall in Hall. destruct (Hall _ Hin) as [s Hs].
  apply (map_Forall_lookup_1 _ _ _ _ Hlt) in Hs. lia.
Qed.

Lemma wf_member_below (w : world) (l : loc) : wf w -> l ∈ seeds w -> (l < next w)%nat.
Proof.
  intros (_ & Hall & Hlt) Hin.
  rewrite Forall_forall in Hall. destruct (Hall _ Hin) as [s Hs].
  by apply (map_Forall_lookup_1 _ _ _ _ Hlt) in Hs.
Qed.

(** A frame never fails on a well-formed state, keeps it well formed, and
    only ever shrinks the population. *)
Lemma draw_wf (w : world) :
  wf w ->
  exists w', draw w = Some (tt, w') /\ wf w' /\ same_controls w w' /\
             (forall l, l ∈ seeds w' -> l ∈ seeds w) /\
             (forall l, l ∉ seeds w -> heap w' !! l = heap w !! l).
Proof using random Math_sin Math_cos Math_PI.
  intros Hwf. destruct (running w) eqn:Hrun.
  - destruct (draw_spec w Hrun Hwf) as (w' & E & Hs & Ha & Hb & C).
    destruct Hwf as (Hnd & Hall & Hlt).
    rewrite Forall_forall in Hall.
    assert (forall l, l ∈ seeds w' -> l ∈ seeds w) as Hsub.
    { intros l. rewrite Hs, list_elem_of_filter. by intros [_ H]. }
    exists w'. repeat split; try done; try apply C.
    + rewrite Hs. by apply NoDup_filter.
    + apply Forall_forall. intros l Hin. apply Hsub in Hin.
      destruct (Hall _ Hin) as [s Hl]. rewrite (Ha _ _ Hin Hl). eauto.
    + apply map_Forall_lookup. intros l s Hl.
      assert (next w' = next w) as -> by apply C.
      destruct (decide (l ∈ seeds w)) as [Hin | Hnin].
      * destruct (Hall _ Hin) as [s0 Hl0].
        by apply (map_Forall_lookup_1 _ _ _ _ Hlt) in Hl0.
      * rewrite (Hb _ Hnin) in Hl.
        by apply (map_Forall_lookup_1 _ _ _ _ Hlt) in Hl.
  - exists w. rewrite draw_paused by done.
    repeat split; try done; apply Hwf.
Qed.

(** What [plantSeed] does: three random draws, one fresh object, put at the
    front of the population. *)
Lemma plantSeed_spec (cx cy : Q) (w : world) :
  plantSeed cx cy w =
  Some (tt,
        set_seeds (next w :: seeds w)
          (set_next (S (next w))
             (set_heap
                (<[next w :=
                     new_seed (cx - rect_left (cv w)) (cy - rect_top (cv w))
                              (paletteSeed w) (random (rng w))
                              (random (1 + rng w)) (random (2 + rng w))]>
                   (heap w))
                (set_rng (3 + rng w) w)))).
Proof. by destruct w. Qed.

Lemma plantSeed_wf (cx cy : Q) (w : world) :
  wf w ->
  exists w', plantSeed cx cy w = Some (tt, w') /\ wf w' /\
             next w' = S (next w) /\ seeds w' = next w :: seeds w /\
             running w' = running w /\ speed w' = speed w /\
             heap w' = <[next w :=
                           new_seed (cx - rect_left (cv w)) (cy - rect_top (cv w))
                                    (paletteSeed w) (random (rng w))
                                    (random (1 + rng w)) (random (2 + rng w))]>
                         (heap w) /\
             cv w' = cv w /\ paletteSeed w' = paletteSeed w /\
             rng w' = (3 + rng w)%nat.
Proof.
  intros Hwf. rewrite plantSeed_spec. eexists. split; [reflexivity |].
  pose proof (wf_fresh w Hwf) as Hfresh.
  destruct Hwf as (Hnd & Hall & Hlt).
  destruct w; unfold wf in *; setters. repeat split; try done.
  - by apply NoDup_cons.
  - apply Forall_cons. split; [rewrite lookup_insert_eq; eauto |].
    eapply Forall_impl; [exact Hall |]. intros l Hl.
    apply lookup_insert_is_Some. destruct (decide (next0 = l)); auto.
  - apply map_Forall_insert_2; [simpl; lia |].
    eapply map_Forall_impl; [exact Hlt |]. simpl. intros; lia.
Qed.

(** An event that touches neither the population nor the store. *)
Ltac quiet_event Hwf :=
  let Hnd := fresh in let Hall := fresh in let Hlt := fresh in
  eexists; split; [reflexivity |];
  destruct Hwf as (Hnd & Hall & Hlt);
  match goal with w : world |- _ => destruct w end;
  unfold wf; setters; repeat split; auto.

(** No event fails on a well-formed state; the state stays well formed, and
    a member of the new population is an old member or a new object. *)
Lemma handle_wf (e : event) (w : world) :
  wf w ->
  exists w', handle e w = Some (tt, w') /\ wf w' /\
             (next w <= next w')%nat /\
             (forall l, l ∈ seeds w' -> l ∈ seeds w \/ (next w <= l)%nat).
Proof.
  intros Hwf. destruct e; simpl.
  - destruct (draw_wf w Hwf) as (w' & E & Hwf' & C & Hsub & _).
    exists w'. repeat split; try done; try apply Hwf'; auto.
    assert (next w' = next w) as -> by apply C. done.
  - destruct (plantSeed_wf clientX clientY w Hwf)
      as (w' & E & Hwf' & Hn & Hs & _).
    exists w'. repeat split; try done; try apply Hwf'; [lia |].
    intros l. rewrite Hs, elem_of_cons. intros [-> | Hin]; auto.
  - eexists. split; [reflexivity |].
    destruct Hwf as (Hnd & Hall & Hlt).
    destruct w; unfold wf; setters. repeat split; auto; [constructor |].
    intros l Hin. by apply elem_of_nil in Hin.
  - quiet_event Hwf.
  - unfold togglePause, mbind, M_bind, bind, gets, modify, when, ret.
    destruct (running w) eqn:Hrun; quiet_event Hwf.
  - quiet_event Hwf.
  - quiet_event Hwf.
  - quiet_event Hwf.
  - quiet_event Hwf.
Qed.

Lemma run_wf (es : list event) (w : world) :
  wf w ->
  exists w', run es w = Some (tt, w') /\ wf w' /\
             (next w <= next w')%nat /\
             (forall l, l ∈ seeds w' -> l ∈ seeds w \/ (next w <= l)%nat).
Proof.
  revert w. induction es as [| e es IH]; intros w Hwf; simpl.
  - exists w. repeat split; try done; try apply Hwf; auto.
  - destruct (handle_wf e w Hwf) as (w1 & E1 & Hwf1 & Hn1 & Hs1).
    destruct (IH w1 Hwf1) as (w2 & E2 & Hwf2 & Hn2 & Hs2).
    exists w2. split; [by erewrite bind_Some by exact E1 |].
    repeat split; try apply Hwf2; [lia |].
    intros l Hin. destruct (Hs2 _ Hin) as [Hin1 | Hge]; [| right; lia].
    destruct (Hs1 _ Hin1); auto.
Qed.

(** ** Expiry *)

Lemma expired_iff (s : Seed.t) :
  expired s = true <-> 120 < Seed.life s \/ 220 < Seed.size s.
Proof using.
  clear. unfold expired. rewrite orb_true_iff, !Js_gt_iff. reflexivity.
Qed.

(** C3: on a running frame a seed of the population is removed if and only
    if, after its growth step, its age exceeds 120 or its size exceeds 220;
    and once it is removed, no later event brings it back. *)
Theorem frame_removes_expired (w : world) (l : loc) (s : Seed.t) :
  wf w -> running w = true -> l ∈ seeds w -> heap w !! l = Some s ->
  exists w',
    draw w = Some (tt, w') /\
    heap w' !! l = Some (growth_step (speed w) s) /\
    (l ∉ seeds w' <->
     120 < Seed.life (growth_step (speed w) s) \/
     220 < Seed.size (growth_step (speed w) s)) /\
    (l ∉ seeds w' ->
     forall es w'', run es w' = Some (tt, w'') -> l ∉ seeds w'').
Proof.
  intros Hwf Hrun Hin Hs.
  destruct (draw_spec w Hrun Hwf) as (w' & E & Hseeds & Ha & Hb & C).
  destruct (draw_wf w Hwf) as (w0 & E0 & Hwf' & _).
  rewrite E in E0. injection E0 as <-.
  exists w'. split; [done |]. split; [by apply Ha |]. split.
  - rewrite <- expired_iff, Hseeds, list_elem_of_filter.
    unfold survives. rewrite Hs.
    destruct (expired (growth_step (speed w) s)); simpl.
    + split; [done | intros _ [[] _]].
    + split; [intros H; exfalso; apply H; by split | done].
  - intros Hout es w'' Hes Hin''.
    destruct (run_wf es w' Hwf') as (w1 & E1 & _ & _ & Hfrom).
    rewrite Hes in E1. injection E1 as <-.
    destruct (Hfrom _ Hin'') as [Hold | Hnew]; [by apply Hout |].
    pose proof (wf_member_below w l Hwf Hin) as Hlt.
    assert (next w' = next w) as Hn by apply C. lia.
Qed.

(** ** Seeds evolve on their own *)

(** Frames leave alone an object that is not in the population. *)
Lemma frames_outside (n : nat) (w : world) (l : loc) :
  wf w -> l ∉ seeds w ->
  exists w', run (repeat Frame n) w = Some (tt, w') /\
             heap w' !! l = heap w !! l.
Proof.
  revert w. induction n as [| n IH]; intros w Hwf Hout; simpl.
  - by exists w.
  - destruct (draw_wf w Hwf) as (w1 & E1 & Hwf1 & _ & Hsub & Hsame).
    destruct (IH w1 Hwf1) as (w2 & E2 & H2); [by intros H%Hsub |].
    exists w2. split; [by erewrite bind_Some by exact E1 |].
    by rewrite H2, Hsame.
Qed.

(** After [n] running frames, the object of a member of the population is
    the function [lived] of its own state, the speed and [n]. *)
Lemma frames_lived (n : nat) (w : world) (l : loc) (s : Seed.t) :
  wf w -> running w = true -> l ∈ seeds w -> heap w !! l = Some s ->
  exists w', run (repeat Frame n) w = Some (tt, w') /\
             heap w' !! l = Some (lived (speed w) n s).
Proof.
  revert w s. induction n as [| n IH]; intros w s Hwf Hrun Hin Hs; simpl.
  - by exists w.
  - destruct (draw_spec w Hrun Hwf) as (w1 & E1 & Hseeds & Ha & Hb & C).
    destruct (draw_wf w Hwf) as (w0 & E0 & Hwf1 & _).
    rewrite E1 in E0. injection E0 as <-.
    pose proof (Ha _ _ Hin Hs) as Hs1.
    assert (speed w1 = speed w) as Hv by apply C.
    assert (running w1 = true) as Hrun1.
    { destruct C as (-> & _). done. }
    erewrite bind_Some by exact E1.
    destruct (expired (growth_step (speed w) s)) eqn:Hexp.
    + destruct (frames_outside n w1 l Hwf1) as (w2 & E2 & H2).
      { rewrite Hseeds, list_elem_of_filter. unfold survives.
        rewrite Hs, Hexp. simpl. tauto. }
      exists w2. split; [done | congruence].
    + destruct (IH w1 (growth_step (speed w) s) Hwf1 Hrun1) as (w2 & E2 & H2);
        [| done |].
      { rewrite Hseeds, list_elem_of_filter. unfold survives.
        rewrite Hs, Hexp. simpl. tauto. }
      exists w2. split; [done |]. by rewrite Hv in H2.
Qed.

(** Renders only move the random source. *)
Lemma renders_spec (k : nat) (w : world) :
  renders k w = Some (tt, set_rng (k + rng w) w).
Proof.
  revert w. induction k as [| k IH]; intros w; cbn [renders].
  - by destruct w.
  - erewrite bind_Some by reflexivity. rewrite IH.
    destruct w; unfold set_rng; simpl. do 3 f_equal. lia.
Qed.

Lemma set_rng_wf (n : nat) (w : world) : wf w -> wf (set_rng n w).
Proof. by destruct w. Qed.

(** C8, as amended: two [plantSeed] calls at the same coordinates, with any
    number [k] of renders in between, make two distinct objects, both in
    the population, and after any number of frames each object is a
    function of its own initial state only.  The [id] token of each is
    computed from its third random draw and from nothing else: when the
    two draws are equal, so are the tokens. *)
Theorem plant_twice_same_place (w : world) (cx cy : Q) (k n : nat) :
  wf w -> running w = true ->
  let x := cx - rect_left (cv w) in
  let y := cy - rect_top (cv w) in
  let m := (3 + k + rng w)%nat in
  let s1 := new_seed x y (paletteSeed w) (random (rng w))
                     (random (1 + rng w)) (random (2 + rng w)) in
  let s2 := new_seed x y (paletteSeed w) (random m)
                     (random (1 + m)) (random (2 + m)) in
  exists w2 l1 l2,
    (plantSeed cx cy;; renders k;; plantSeed cx cy) w = Some (tt, w2) /\
    l1 <> l2 /\ (l1 ∉ seeds w) /\ (l2 ∉ seeds w) /\
    seeds w2 = l2 :: l1 :: seeds w /\
    heap w2 !! l1 = Some s1 /\ heap w2 !! l2 = Some s2 /\
    (random (2 + rng w) = random (2 + m) -> Seed.id s1 = Seed.id s2) /\
    exists w3,
      run (repeat Frame n) w2 = Some (tt, w3) /\
      heap w3 !! l1 = Some (lived (speed w) n s1) /\
      heap w3 !! l2 = Some (lived (speed w) n s2).
Proof.
  intros Hwf Hrun x y m s1 s2.
  destruct (plantSeed_wf cx cy w Hwf)
    as (w1 & E1 & Hwf1 & Hn1 & Hs1 & Hr1 & Hv1 & Hh1 & Hc1 & Hp1 & Hg1).
  pose proof (renders_spec k w1) as Ek.
  set (w1' := set_rng (k + rng w1) w1) in Ek.
  assert (next w1' = next w1 /\ seeds w1' = seeds w1 /\
          running w1' = running w1 /\ speed w1' = speed w1 /\
          heap w1' = heap w1 /\ cv w1' = cv w1 /\
          paletteSeed w1' = paletteSeed w1 /\ rng w1' = (k + rng w1)%nat)
    as (Hn' & Hs' & Hr' & Hv' & Hh' & Hc' & Hp' & Hg').
  { subst w1'. by destruct w1. }
  assert (wf w1') as Hwf1' by (by apply set_rng_wf).
  destruct (plantSeed_wf cx cy w1' Hwf1')
    as (w2 & E2 & Hwf2 & Hn2 & Hs2 & Hr2 & Hv2 & Hh2 & _).
  pose proof (wf_fresh w Hwf) as Hfresh.
  assert (next w1 ∉ seeds w) as Hfresh'.
  { intros Hin. pose proof (wf_member_below w _ Hwf Hin). lia. }
  rewrite Hn', Hh', Hc', Hp', Hg', Hc1, Hp1, Hg1 in Hh2.
  replace (k + (3 + rng w))%nat with m in Hh2 by (subst m; lia).
  fold x y in Hh1, Hh2.
  change (new_seed x y (paletteSeed w) (random (rng w)) (random (1 + rng w))
                   (random (2 + rng w))) with s1 in Hh1.
  change (new_seed x y (paletteSeed w) (random m) (random (1 + m))
                   (random (2 + m))) with s2 in Hh2.
  rewrite Hn', Hs' in Hs2. rewrite Hr' in Hr2. rewrite Hv' in Hv2.
  assert (heap w2 !! next w = Some s1 /\ heap w2 !! next w1 = Some s2) as [H1 H2].
  { rewrite Hh2, Hh1. split.
    - rewrite lookup_insert_ne by lia. apply lookup_insert_eq.
    - apply lookup_insert_eq. }
  exists w2, (next w), (next w1).
  split.
  { erewrite bind_Some by exact E1. erewrite bind_Some by exact Ek. exact E2. }
  split; [lia |]. split; [exact Hfresh |]. split; [exact Hfresh' |].
  split; [by rewrite Hs2, Hs1 |]. split; [exact H1 |]. split; [exact H2 |].
  split.
  { intros Heq. subst s1 s2. cbn [Seed.id new_seed]. by rewrite Heq. }
  assert (running w2 = true) as Hrun2 by congruence.
  assert (speed w2 = speed w) as Hv by congruence.
  destruct (frames_lived n w2 (next w) s1 Hwf2 Hrun2) as (w3 & E3 & L1);
    [rewrite Hs2, Hs1, !elem_of_cons; auto | exact H1 |].
  destruct (frames_lived n w2 (next w1) s2 Hwf2 Hrun2) as (w3' & E3' & L2);
    [rewrite Hs2, !elem_of_cons; auto | exact H2 |].
  rewrite E3 in E3'. injection E3' as <-.
  exists w3. rewrite Hv in L1, L2. split; [exact E3 |]. split; [exact L1 | exact L2].
Qed.

(** ** Rendering a spawned pixel *)


(** ** Resizing *)

(** C9, as amended: [handleResize] has no guard.  It always sets the
    backing buffer to the client size times the device pixel ratio and
    resets the transform; with a zero-area container the buffer gets a
    zero dimension.  The seeds are not touched. *)
Theorem handleResize_zero_area (w : world) :
  clientWidth (cv w) == 0 \/ clientHeight (cv w) == 0 ->
  exists w',
    handleResize w = Some (tt, w') /\
    width (cv w') = clientWidth (cv w) * devicePixelRatio w /\
    height (cv w') = clientHeight (cv w) * devicePixelRatio w /\
    transform (cv w') =
      (devicePixelRatio w, 0, 0, devicePixelRatio w, 0, 0) /\
    (width (cv w') == 0 \/ height (cv w') == 0) /\
    seeds w' = seeds w /\ heap w' = heap w.
Proof.
  intros Hzero. eexists. split; [reflexivity |].
  destruct w. setters. repeat split; try done.
  destruct Hzero as [H | H]; [left | right]; rewrite H; lra.
Qed.

(** ** More on growth *)

(** X1: at every positive speed the growth step changes the size in the
    direction of 150: a seed of size at most 150 does not shrink, a seed of
    size exactly 150 keeps its size, a seed of size at least 150 does not
    grow; and the age does not decrease. *)
Theorem growth_fixed_point (v : Q) (s : Seed.t) :
  0 < v ->
  Seed.life s <= Seed.life (growth_step v s) /\
  (Seed.size s <= 150 -> Seed.size s <= Seed.size (growth_step v s)) /\
  (Seed.size s == 150 -> Seed.size (growth_step v s) == 150) /\
  (150 <= Seed.size s -> Seed.size (growth_step v s) <= Seed.size s).
Proof.
  intros Hv. rewrite growth_step_life, growth_step_size.
  split; [lra |].
  destruct (Js.lt (Seed.life s + 0.02 * v) 10); qconst;
    (split; [| split]); intros Hs; nra.
Qed.



(** ** More on the spawner *)

(** X2: a seed of the population (not older than 120 before its growth step)
    spawns at most 10 pixels in a frame at a slider speed. *)
Theorem spawnCount_le_10 (r life speed : Q) :
  r < 1 -> life <= 120 -> 0 < speed -> speed <= 3 ->
  (spawnCount r (life + 0.02 * speed) speed <= 10)%Z.
Proof.
  intros Hr Hl Hv Hv'. unfold spawnCount, Js.floor.
  set (q := (r + (life + 0.02 * speed) * 0.05) * (speed * 0.5)).
  assert (q < 11) as Hq.
  { subst q. destruct (Qlt_le_dec (r + (life + 0.02 * speed) * 0.05) 0); nra. }
  pose proof (Qfloor_le q) as Hf.
  assert (inject_Z (Qfloor q) < inject_Z 11) as Hlt
      by (change (inject_Z 11) with 11; lra).
  rewrite <- Zlt_Qlt in Hlt. lia.
Qed.

(** X3: at speed 1 or less a seed spawns no pixel at all until its age
    reaches 20. *)
Theorem spawnCount_zero_when_young (r life speed : Q) :
  0 <= r -> r < 1 -> 0 <= life -> life < 20 -> 0 < speed -> speed <= 1 ->
  spawnCount r life speed = 0%Z.
Proof.
  intros Hr0 Hr1 Hl0 Hl1 Hv Hv'. unfold spawnCount, Js.floor.
  apply Qfloor_unique.
  - change (inject_Z 0) with 0. nra.
  - change (inject_Z (0 + 1)) with 1. nra.
Qed.
(** ** More on planting *)

(** [a % 1] on a non-negative [a] is its fractional part. *)
Lemma rem_1_range (a : Q) : 0 <= a -> 0 <= Js.rem a 1 /\ Js.rem a 1 < 1.
Proof.
  intros Ha. unfold Js.rem.
  assert (a / 1 == a) as E by (unfold Qdiv; change (/ 1) with 1; lra).
  rewrite trunc_nonneg by lra.
  pose proof (Qfloor_le (a / 1)) as H1.
  pose proof (Qlt_floor (a / 1)) as H2.
  rewrite inject_Z_plus in H2. change (inject_Z 1) with 1 in H2.
  set (f := inject_Z (Qfloor (a / 1))) in *. split; lra.
Qed.

(** X4: [plantSeed] puts one new object at the front of the population; with
    draws and a palette seed in [[0, 1)] its size lies in [[2, 8)], its age
    is 0, its hue base lies in [[0, 1)], its position is the pointer
    position relative to the canvas, and it is not expired. *)
Theorem plantSeed_new_seed (cx cy : Q) (w : world) :
  0 <= random (rng w) -> random (rng w) < 1 ->
  0 <= random (1 + rng w) -> random (1 + rng w) < 1 ->
  0 <= paletteSeed w -> paletteSeed w < 1 ->
  exists w' s,
    plantSeed cx cy w = Some (tt, w') /\
    seeds w' = next w :: seeds w /\
    heap w' !! next w = Some s /\
    Seed.x s = cx - rect_left (cv w) /\
    Seed.y s = cy - rect_top (cv w) /\
    2 <= Seed.size s /\ Seed.size s < 8 /\
    Seed.life s = 0 /\
    0 <= Seed.hueBase s /\ Seed.hueBase s < 1 /\
    expired s = false.
Proof.
  intros Hr0 Hr1 Hq0 Hq1 Hp0 Hp1. rewrite plantSeed_spec.
  eexists. eexists. split; [reflexivity |].
  split; [destruct w; reflexivity |].
  split; [destruct w; apply lookup_insert_eq |].
  split; [reflexivity |]. split; [reflexivity |].
  cbn [Seed.size Seed.life Seed.hueBase new_seed].
  split; [lra |]. split; [lra |]. split; [reflexivity |].
  destruct (rem_1_range (paletteSeed w + random (1 + rng w) * 0.6)) as [H0 H1];
    [nra |].
  split; [exact H0 |]. split; [exact H1 |].
  unfold expired. apply orb_false_iff.
  split; apply Js_gt_false_iff; cbn [Seed.size Seed.life new_seed]; lra.
Qed.

(** Facts about strings. *)
Lemma substring_length_le (n m : nat) (s : string) :
  (String.length (String.substring n m s) <= m)%nat.
Proof.
  revert n m. induction s as [| c s IH]; intros n m.
  - destruct n, m; simpl; lia.
  - destruct n as [| n].
    + destruct m as [| m]; simpl; [lia |]. specialize (IH 0%nat m). lia.
    + simpl. apply IH.
Qed.

Lemma substring_past_end (n m : nat) (s : string) :
  (String.length s <= n)%nat -> String.substring n m s = EmptyString.
Proof.
  revert n m. induction s as [| c s IH]; intros n m H.
  - by destruct n, m.
  - destruct n as [| n]; simpl in H; [lia |].
    simpl. apply IH. lia.
Qed.

(** X5: whatever the engine prints for the draw, the [id] token of a new
    seed has at most seven characters, and it is the empty string when the
    printed number has no third character, as in ["0"]. *)
Theorem id_token_shape (x y palette r1 r2 r3 : Q) :
  let id := Seed.id (new_seed x y palette r1 r2 r3) in
  (String.length id <= 7)%nat /\
  ((String.length (Number_toString36 r3) <= 2)%nat -> id = EmptyString).
Proof.
  cbn [Seed.id new_seed]. unfold Js.slice. split.
  - apply substring_length_le.
  - apply substring_past_end.
Qed.

(** X6: a pointer event plants exactly one seed, at the first touch point of
    a touch event (further touch points are ignored) and at the pointer
    of a mouse event; a touch event without touch points fails. *)
Theorem handleCanvasDown_plants_one (e : pointer_event) (w : world) :
  (touches e = Some [] -> handleCanvasDown e w = None) /\
  (forall tx ty rest,
      touches e = Some ((tx, ty) :: rest) ->
      handleCanvasDown e w = plantSeed tx ty w) /\
  (touches e = None ->
   handleCanvasDown e w = plantSeed (ev_clientX e) (ev_clientY e) w) /\
  (touches e <> Some [] ->
   exists w', handleCanvasDown e w = Some (tt, w') /\
              seeds w' = next w :: seeds w).
Proof.
  unfold handleCanvasDown. destruct (touches e) as [[| [tx ty] rest] |].
  - repeat split; done.
  - split; [done |]. split; [by intros ? ? ? [= -> -> ->] |].
    split; [done |]. intros _. simpl. rewrite plantSeed_spec.
    eexists. split; [reflexivity | destruct w; reflexivity].
  - split; [done |]. split; [done |]. split; [done |].
    intros _. rewrite plantSeed_spec.
    eexists. split; [reflexivity | destruct w; reflexivity].
Qed.
(** ** More on what a frame draws *)

(** X7: the inner loop run for [n] iterations issues exactly [n] filled
    arcs, those of the indices [k .. k + n - 1] in turn, uses five random
    draws for each, and changes nothing else. *)
Theorem spawn_loop_spec (n : nat) (l : loc) (k : nat) (w : world) (s : Seed.t) :
  heap w !! l = Some s ->
  exists w',
    spawn_loop n l k w = Some (tt, w') /\
    rng w' = (5 * n + rng w)%nat /\
    log w' = rev (map (fun j => pixel_cmd s (brush w) (k + j) (5 * j + rng w))
                      (seq 0 n)) ++ log w /\
    quiet w w'.
Proof.
  revert k w. induction n as [| n IH]; intros k w Hs.
  - exists w. repeat split; try done. apply quiet_refl.
  - cbn [spawn_loop]. erewrite bind_Some by (by apply spawn_pixel_spec).
    set (w1 := set_log _ _).
    assert (heap w1 !! l = Some s /\ brush w1 = brush w /\
            rng w1 = (5 + rng w)%nat /\
            log w1 = pixel_cmd s (brush w) k (rng w) :: log w /\ quiet w w1)
      as (Hs1 & Hb1 & Hr1 & Hl1 & Q1).
    { subst w1. destruct w. by repeat split. }
    destruct (IH (S k) w1 Hs1) as (w' & E & Hr & Hl & Q).
    exists w'. split; [exact E |]. split; [lia |].
    split; [| eauto using quiet_trans].
    rewrite Hl, Hl1, Hb1, Hr1. cbn [seq map rev].
    rewrite <- seq_shift, map_map, <- app_assoc. cbn [app].
    rewrite Nat.add_0_r, Nat.mul_0_r. cbn [Nat.add]. f_equal. f_equal.
    apply map_ext. intros j. f_equal; lia.
Qed.

(** The alpha of a pixel at distance [dist] from a seed of size [size]. *)
Lemma spawn_alpha_bounds (dist size : Q) :
  0 <= size -> 0 <= dist -> dist <= 0.9 * size ->
  0.08 <= spawn_alpha dist size /\ spawn_alpha dist size <= 0.8.
Proof.
  intros Hs Hd0 Hd1. unfold spawn_alpha, Js.min.
  assert (0 < size + 1) as Hden by lra.
  assert (0 <= dist / (size + 1)) as Ht0.
  { apply Qle_shift_div_l; [done | lra]. }
  assert (dist / (size + 1) <= 0.9) as Ht1.
  { apply Qle_shift_div_r; [done | lra]. }
  set (t := dist / (size + 1)) in *. split.
  - apply Q.min_glb; lra.
  - eapply Qle_trans; [apply Q.le_min_r | lra].
Qed.

(** X8: a spawned pixel lies within the radius [size] of its seed in both
    coordinates, is drawn with a lightness between 45 and 55 and with a
    global alpha between 0.07 and 0.73; this needs a size of at least 2, as
    every planted seed has, draws in [[0, 1)] and a sine and a cosine in
    [[-1, 1]].  The bounds leave room for the rounding of the products. *)
Theorem spawn_pixel_in_range (l : loc) (k : nat) (w : world) (s : Seed.t) :
  heap w !! l = Some s -> 2 <= Seed.size s ->
  0 <= random (1 + rng w) -> random (1 + rng w) < 1 ->
  0 <= random (3 + rng w) -> random (3 + rng w) < 1 ->
  -1 <= Math_cos (random (rng w) * Math_PI * 2) ->
  Math_cos (random (rng w) * Math_PI * 2) <= 1 ->
  -1 <= Math_sin (random (rng w) * Math_PI * 2) ->
  Math_sin (random (rng w) * Math_PI * 2) <= 1 ->
  exists x y radius hue light alpha w',
    spawn_pixel l k w = Some (tt, w') /\
    log w' = FillArc x y radius hue light alpha :: log w /\
    Seed.x s - Seed.size s <= x /\ x <= Seed.x s + Seed.size s /\
    Seed.y s - Seed.size s <= y /\ y <= Seed.y s + Seed.size s /\
    45 <= light /\ light <= 55 /\
    0.07 <= alpha /\ alpha <= 0.73.
Proof.
  intros Hs Hsize Hd0 Hd1 Hl0 Hl1 Hc0 Hc1 Hs0 Hs1.
  rewrite (spawn_pixel_spec l k w s Hs). unfold pixel_cmd.
  do 6 eexists. eexists. split; [reflexivity |].
  split; [destruct w; reflexivity |].
  destruct (spawn_dist_range (random (1 + rng w)) (Seed.size s))
    as [D0 D1]; [lra | done | done |].
  destruct (spawn_alpha_bounds (spawn_dist (random (1 + rng w)) (Seed.size s))
                               (Seed.size s)) as [A0 A1]; [lra | done | done |].
  set (d := spawn_dist _ _) in *. set (a := spawn_alpha _ _) in *.
  set (c := Math_cos _) in *. set (sn := Math_sin _) in *.
  unfold lightness. repeat split; nra.
Qed.

(** One pass of the loop of the background dots. *)
Lemma star_spec (w : world) :
  (forall n, 0 <= random n /\ random n < 1) ->
  0 <= clientWidth (cv w) -> 0 <= clientHeight (cv w) ->
  exists w' new,
    star w = Some (tt, w') /\ log w' = new ++ log w /\
    (length new <= 1)%nat /\ Forall (star_cmd (cv w)) new /\ quiet w w'.
Proof.
  intros Hrnd Hw Hh.
  unfold star, mbind, M_bind, bind, Math_random, when, gets, emit, modify.
  cbn [rng set_rng]. destruct (Js.lt _ _).
  - eexists. eexists (cons _ nil). split; [reflexivity |].
    split; [destruct w; reflexivity |]. split; [simpl; lia |].
    split; [| by destruct w].
    constructor; [| constructor].
    destruct w as [? ? ? ? ? ? ? ? c ? n ?]. cbn.
    pose proof (Hrnd (S n)) as [? ?]. pose proof (Hrnd (S (S n))) as [? ?].
    pose proof (Hrnd (S (S (S n)))) as [? ?]. cbn in Hw, Hh.
    repeat split; try reflexivity; nra.
  - exists (set_rng (S (rng w)) w), []. split; [reflexivity |].
    split; [destruct w; reflexivity |]. split; [simpl; lia |].
    split; [constructor | by destruct w].
Qed.

(** X9: the background pass plots at most [n] dots in [n] iterations, each a
    1 by 1 rectangle inside the canvas with an alpha in [[0, 0.08)], and
    changes nothing else. *)
Theorem stars_spec (n : nat) (w : world) :
  (forall i, 0 <= random i /\ random i < 1) ->
  0 <= clientWidth (cv w) -> 0 <= clientHeight (cv w) ->
  exists w' new,
    stars n w = Some (tt, w') /\ log w' = new ++ log w /\
    (length new <= n)%nat /\ Forall (star_cmd (cv w)) new /\ quiet w w'.
Proof.
  intros Hrnd. revert w. induction n as [| n IH]; intros w Hw Hh.
  - exists w, []. split; [done |]. split; [done |]. split; [done |].
    split; [constructor | apply quiet_refl].
  - destruct (star_spec w Hrnd Hw Hh) as (w1 & new1 & E1 & L1 & N1 & F1 & Q1).
    assert (cv w1 = cv w) as Hcv.
    { apply quiet_store in Q1 as (_ & _ & C). apply C. }
    destruct (IH w1) as (w2 & new2 & E2 & L2 & N2 & F2 & Q2);
      [by rewrite Hcv | by rewrite Hcv |].
    exists w2, (new2 ++ new1). cbn [stars].
    split; [by erewrite bind_Some by exact E1 |].
    split; [by rewrite L2, L1, app_assoc |].
    split; [rewrite length_app; lia |].
    split; [| eauto using quiet_trans].
    apply Forall_app. rewrite Hcv in F2. done.
Qed.
(** ** The grid *)

Lemma grid_marks_range (fuel : nat) (x w : Q) :
  Forall (fun m => x <= m /\ m < w) (grid_marks fuel x w).
Proof.
  revert x. induction fuel as [| fuel IH]; intros x; cbn [grid_marks].
  - constructor.
  - destruct (Js.lt x w) eqn:E; [| constructor].
    apply Js_lt_iff in E. constructor; [split; [lra | done] |].
    eapply Forall_impl; [apply IH |]. cbv beta. intros m [? ?]. split; lra.
Qed.

Lemma grid_marks_spec (w : Q) (fuel k : nat) (x : Q) :
  x == 40 * inject_Z (Z.of_nat k) ->
  (Z.to_nat (Qceiling (w / 40)) - k <= fuel)%nat ->
  Forall2 Qeq (grid_marks fuel x w)
              (multiples_of_40 k (Z.to_nat (Qceiling (w / 40)) - k)).
Proof.
  set (N := Z.to_nat (Qceiling (w / 40))).
  revert k x. induction fuel as [| fuel IH]; intros k x Hx Hfuel.
  - replace (N - k)%nat with 0%nat by lia. constructor.
  - cbn [grid_marks].
    pose proof (Qle_ceiling (w / 40)) as Hc1.
    pose proof (Qceiling_lt (w / 40)) as Hc2.
    unfold Z.sub in Hc2. rewrite inject_Z_plus in Hc2.
    change (inject_Z (- (1))) with (-1) in Hc2.
    unfold Qdiv in Hc1, Hc2. change (/ 40) with (1 # 40) in Hc1, Hc2.
    destruct (Js.lt x w) eqn:E.
    + apply Js_lt_iff in E.
      assert (Z.of_nat k < Qceiling (w / 40))%Z as Hk.
      { rewrite Zlt_Qlt. unfold Qdiv. change (/ 40) with (1 # 40). lra. }
      replace (N - k)%nat with (S (N - S k)) by (subst N; lia).
      unfold multiples_of_40. cbn [seq map].
      constructor; [exact Hx |].
      apply IH; [| subst N; lia].
      rewrite Hx, Nat2Z.inj_succ. unfold Z.succ. rewrite inject_Z_plus.
      change (inject_Z 1) with 1. lra.
    + apply Js_lt_false_iff in E.
      assert (Qceiling (w / 40) <= Z.of_nat k)%Z as Hk.
      { destruct (Z_le_gt_dec (Qceiling (w / 40)) (Z.of_nat k)) as [| Hgt];
          [done | exfalso].
        assert (inject_Z (Z.of_nat k) + 1 <= inject_Z (Qceiling (w / 40))) as H.
        { change 1 with (inject_Z 1). rewrite <- inject_Z_plus, <- Zle_Qle. lia. }
        unfold Qdiv in H. change (/ 40) with (1 # 40) in H. lra. }
      replace (N - k)%nat with 0%nat by (subst N; lia). constructor.
Qed.

(** X10: [drawGrid] terminates and draws [ceil(w / 40)] vertical and
    [ceil(h / 40)] horizontal segments (none for a non-positive extent):
    with at least that many iterations allowed, the loop variable takes
    the values 0, 40, 80, ..., each below the extent. *)
Theorem drawGrid_segments (w h : Q) (fuel : nat) :
  let nw := Z.to_nat (Qceiling (w / 40)) in
  let nh := Z.to_nat (Qceiling (h / 40)) in
  (nw <= fuel)%nat -> (nh <= fuel)%nat ->
  Forall2 Qeq (grid_marks fuel 0 w) (multiples_of_40 0 nw) /\
  Forall2 Qeq (grid_marks fuel 0 h) (multiples_of_40 0 nh) /\
  Forall (fun x => 0 <= x /\ x < w) (grid_marks fuel 0 w) /\
  Forall (fun y => 0 <= y /\ y < h) (grid_marks fuel 0 h) /\
  length (grid_segments fuel w h) = (nw + nh)%nat.
Proof.
  intros nw nh Hw Hh.
  assert (Forall2 Qeq (grid_marks fuel 0 w) (multiples_of_40 0 nw)) as Fw.
  { replace nw with (nw - 0)%nat by lia.
    apply grid_marks_spec; [reflexivity | subst nw; lia]. }
  assert (Forall2 Qeq (grid_marks fuel 0 h) (multiples_of_40 0 nh)) as Fh.
  { replace nh with (nh - 0)%nat by lia.
    apply grid_marks_spec; [reflexivity | subst nh; lia]. }
  split; [exact Fw |]. split; [exact Fh |].
  split; [apply grid_marks_range |]. split; [apply grid_marks_range |].
  unfold grid_segments. rewrite length_app, !length_map.
  rewrite (Forall2_length _ _ _ Fw), (Forall2_length _ _ _ Fh).
  unfold multiples_of_40. by rewrite !length_map, !length_seq.
Qed.

(** ** More on events *)

(** X11: while the component is paused, frames change nothing at all: no
    fade, no random draw, no growth. *)
Theorem paused_frames_do_nothing (n : nat) (w : world) :
  running w = false -> run (repeat Frame n) w = Some (tt, w).
Proof.
  intros Hrun. induction n as [| n IH]; [reflexivity |].
  cbn [repeat run handle]. erewrite bind_Some by (by apply draw_paused).
  exact IH.
Qed.

(** X12: the pause button flips [running] and nothing else, so pressing it
    twice gives back the state. *)
Theorem pause_twice (w : world) :
  (exists w1, handle Pause w = Some (tt, w1) /\
              w1 = set_running (negb (running w)) w) /\
  run [Pause; Pause] w = Some (tt, w).
Proof.
  destruct w as [[] ? ? ? ? ? ? ? ? ? ? ?]; split; try reflexivity;
    eexists; split; reflexivity.
Qed.

(** The events that are neither a frame, nor a click, nor [clear]. *)
Lemma handle_controls (e : event) (w : world) :
  match e with Frame | Plant _ _ | Clear => False | _ => True end ->
  exists w', handle e w = Some (tt, w') /\
             seeds w' = seeds w /\ heap w' = heap w /\ next w' = next w.
Proof.
  destruct e; intros He; try contradiction; cbn [handle].
  - eexists. split; [reflexivity |]. by destruct w.
  - unfold togglePause, mbind, M_bind, bind, gets, modify, when, ret.
    destruct (running w) eqn:Hrun; eexists; (split; [reflexivity |]);
      by destruct w.
  - eexists. split; [reflexivity |]. by destruct w.
  - eexists. split; [reflexivity |]. by destruct w.
  - eexists. split; [reflexivity |]. by destruct w.
  - eexists. split; [reflexivity |]. by destruct w.
Qed.

(** X13: resizing, pausing, re-rolling the palette and moving the sliders or
    the grid box never fail and never touch the population nor any seed
    object. *)
Theorem controls_leave_seeds (e : event) (w : world) :
  match e with Frame | Plant _ _ | Clear => False | _ => True end ->
  exists w', handle e w = Some (tt, w') /\
             seeds w' = seeds w /\ heap w' = heap w.
Proof.
  intros He. destruct (handle_controls e w He) as (w' & E & Hs & Hh & _).
  by exists w'.
Qed.

(** X14: [handleResize] is idempotent: a second call in a row changes
    nothing more. *)
Theorem handleResize_idempotent (w : world) :
  exists w1, handleResize w = Some (tt, w1) /\
             handleResize w1 = Some (tt, w1) /\
             width (cv w1) = clientWidth (cv w) * devicePixelRatio w /\
             height (cv w1) = clientHeight (cv w) * devicePixelRatio w.
Proof.
  eexists. split; [reflexivity |]. by destruct w as [? ? ? ? ? ? ? ? [] ? ? ?].
Qed.

(** X15: [clear] empties the population, paints the canvas with the solid
    background and leaves the seed objects alone; the seeds that existed
    before never come back, whatever happens next. *)
Theorem clear_is_final (w : world) :
  wf w ->
  exists w1,
    clear w = Some (tt, w1) /\
    seeds w1 = [] /\ heap w1 = heap w /\
    log w1 = FillRect "#03060c" 1 0 0 (clientWidth (cv w)) (clientHeight (cv w))
             :: log w /\
    forall es w' l,
      run es w1 = Some (tt, w') -> l ∈ seeds w' -> (next w <= l)%nat.
Proof.
  intros Hwf.
  destruct (handle_wf Clear w Hwf) as (w1 & E & Hwf1 & _ & _).
  cbn [handle] in E. exists w1. split; [exact E |].
  assert (seeds w1 = [] /\ heap w1 = heap w /\ next w1 = next w /\
          log w1 = FillRect "#03060c" 1 0 0 (clientWidth (cv w))
                            (clientHeight (cv w)) :: log w)
    as (S1 & H1 & N1 & L1).
  { injection E as <-. by destruct w. }
  split; [done |]. split; [done |]. split; [done |].
  intros es w' l Hes Hin.
  destruct (run_wf es w1 Hwf1) as (w2 & E2 & _ & _ & Hfrom).
  rewrite Hes in E2. injection E2 as <-.
  destruct (Hfrom l Hin) as [Hold | Hnew]; [| lia].
  rewrite S1 in Hold. by apply elem_of_nil in Hold.
Qed.

(** X16: started without seeds, the component never fails, whatever the
    events: no frame ever reads a seed that is not there, and the
    population never holds an object twice. *)
Theorem run_never_fails (w : world) (es : list event) :
  seeds w = [] -> heap w = ∅ ->
  exists w', run es w = Some (tt, w') /\ wf w'.
Proof.
  intros Hs Hh.
  assert (wf w) as Hwf.
  { unfold wf. rewrite Hs, Hh. split; [constructor |].
    split; [constructor | apply map_Forall_empty]. }
  destruct (run_wf es w Hwf) as (w' & E & Hwf' & _).
  by exists w'.
Qed.

(** X17: a running frame keeps the surviving seeds in their order, and every
    seed it keeps has an age of at most 120 and a size of at most 220. *)
Theorem frame_keeps_order (w : world) :
  wf w -> running w = true ->
  exists w',
    draw w = Some (tt, w') /\
    seeds w' `sublist_of` seeds w /\
    (length (seeds w') <= length (seeds w))%nat /\
    forall l, l ∈ seeds w' ->
              exists s, heap w' !! l = Some s /\
                        Seed.life s <= 120 /\ Seed.size s <= 220.
Proof.
  intros Hwf Hrun.
  destruct (draw_spec w Hrun Hwf) as (w' & E & Hseeds & Ha & Hb & C).
  exists w'. split; [exact E |]. rewrite Hseeds.
  split; [apply sublist_filter |]. split; [apply length_filter |].
  intros l Hin. apply list_elem_of_filter in Hin as [Hsurv Hin].
  unfold survives in Hsurv. destruct (heap w !! l) as [s |] eqn:Hs; [| done].
  exists (growth_step (speed w) s). split; [by apply Ha |].
  destruct (expired (growth_step (speed w) s)) eqn:Hexp; [done |].
  apply orb_false_iff in Hexp as [H1 H2].
  apply Js_gt_false_iff in H1. apply Js_gt_false_iff in H2. done.
Qed.
(** ** What never changes in a seed *)

Lemma same_identity_refl (s : Seed.t) : same_identity s s.
Proof. by repeat split. Qed.

Lemma same_identity_trans (s1 s2 s3 : Seed.t) :
  same_identity s1 s2 -> same_identity s2 s3 -> same_identity s1 s3.
Proof using.
  clear. unfold same_identity. intros (? & ? & ? & ?) (? & ? & ? & ?).
  repeat split; congruence.
Qed.

Lemma same_identity_growth (v : Q) (s : Seed.t) :
  same_identity s (growth_step v s).
Proof. by repeat split. Qed.

Lemma handle_identity (e : event) (w w' : world) (l : loc) (s : Seed.t) :
  wf w -> heap w !! l = Some s -> handle e w = Some (tt, w') ->
  exists s', heap w' !! l = Some s' /\ same_identity s s'.
Proof.
  intros Hwf Hs He.
  assert (forall w0, heap w0 = heap w ->
            exists s', heap w0 !! l = Some s' /\ same_identity s s') as Hsame.
  { intros w0 ->. exists s. split; [done | apply same_identity_refl]. }
  destruct e.
  - cbn [handle] in He. destruct (running w) eqn:Hrun.
    + destruct (draw_spec w Hrun Hwf) as (w0 & E & _ & Ha & Hb & _).
      rewrite He in E. injection E as <-.
      destruct (decide (l ∈ seeds w)) as [Hin | Hout].
      * exists (growth_step (speed w) s).
        split; [by apply Ha | apply same_identity_growth].
      * exists s. split; [by rewrite Hb | apply same_identity_refl].
    + rewrite draw_paused in He by done. injection He as <-. by apply Hsame.
  - cbn [handle] in He.
    destruct (plantSeed_wf clientX clientY w Hwf)
      as (w0 & E & _ & _ & _ & _ & _ & Hh & _).
    rewrite He in E. injection E as <-.
    exists s. split; [| apply same_identity_refl].
    rewrite Hh, lookup_insert_ne; [done |].
    destruct Hwf as (_ & _ & Hlt).
    apply (map_Forall_lookup_1 _ _ _ _ Hlt) in Hs. lia.
  - cbn [handle] in He.
    assert (exists w0, clear w = Some (tt, w0) /\ heap w0 = heap w)
      as (w0 & E & Hh).
    { eexists. split; [reflexivity | by destruct w]. }
    rewrite He in E. injection E as <-. by apply Hsame.
  - destruct (handle_controls (Resize cw ch) w I) as (w0 & E & _ & Hh & _).
    rewrite He in E. injection E as <-. by apply Hsame.
  - destruct (handle_controls Pause w I) as (w0 & E & _ & Hh & _).
    rewrite He in E. injection E as <-. by apply Hsame.
  - destruct (handle_controls Palette w I) as (w0 & E & _ & Hh & _).
    rewrite He in E. injection E as <-. by apply Hsame.
  - destruct (handle_controls (SetSpeed v) w I) as (w0 & E & _ & Hh & _).
    rewrite He in E. injection E as <-. by apply Hsame.
  - destruct (handle_controls (SetBrush v) w I) as (w0 & E & _ & Hh & _).
    rewrite He in E. injection E as <-. by apply Hsame.
  - destruct (handle_controls (SetShowGrid b) w I) as (w0 & E & _ & Hh & _).
    rewrite He in E. injection E as <-. by apply Hsame.
Qed.

(** X18: no sequence of events ever changes the position, the hue base or
    the token of a seed object, nor disposes of the object: they stay as
    [plantSeed] made them (re-rolling the palette only affects later
    seeds). *)
Theorem seed_identity_is_kept (es : list event) (w w' : world)
    (l : loc) (s : Seed.t) :
  wf w -> heap w !! l = Some s -> run es w = Some (tt, w') ->
  exists s', heap w' !! l = Some s' /\ same_identity s s'.
Proof.
  revert w s. induction es as [| e es IH]; intros w s Hwf Hs Hes.
  - cbn [run] in Hes. injection Hes as <-.
    exists s. split; [done | apply same_identity_refl].
  - destruct (handle_wf e w Hwf) as (w1 & E1 & Hwf1 & _).
    cbn [run] in Hes. erewrite bind_Some in Hes by exact E1.
    destruct (handle_identity e w w1 l s Hwf Hs E1) as (s1 & Hs1 & I1).
    destruct (IH w1 s1 Hwf1 Hs1 Hes) as (s' & Hs' & I').
    exists s'. split; [done | eauto using same_identity_trans].
Qed.

(** ** How long a seed lives *)



End Engine.

(** ** The engine on the sample inputs *)

(** Closed comparisons of rationals, by computation. *)
Ltac qdecide :=
  vm_compute;
  first [ reflexivity
        | discriminate
        | let H := fresh in intro H; discriminate H
        | let H := fresh in intro H; apply H; reflexivity ].

Abbreviation sample_run :=
  (run eighths sin_approx cos_approx sample_PI Js.expansion36).
Abbreviation sample_draw := (draw eighths sin_approx cos_approx sample_PI).

Lemma garden_wf : wf garden.
Proof. apply (bool_decide_unpack _). vm_compute. exact I. Qed.

Lemma empty_garden_wf : wf empty_garden.
Proof. apply (bool_decide_unpack _). vm_compute. exact I. Qed.

(** C1, the amended statement on a seed with [life = 0] and [size = 5]. *)
Lemma growth_step_from_5_witness :
  let s := Seed.mk 40 40 5 0 0.05 "i" in
  Seed.life s == 0 /\ Seed.size s == 5 /\
  Seed.life (growth_step 1 s) == 0.02 /\
  5 < Seed.size (growth_step 1 s) /\
  Seed.size (growth_step 1 s) == 5 + 0.3 * (1 - 5 / 150).
Proof.
  intros s.
  assert (Seed.life s == 0) as H1 by reflexivity.
  assert (Seed.size s == 5) as H2 by reflexivity.
  exact (conj H1 (conj H2 (growth_step_from_5 s H1 H2))).
Defined.

(** C1 as stated fails: the size after the step is not strictly below
    [5 + 0.3 * (1 - 5 / 150)]; it is that number. *)
Lemma growth_step_from_5_not_below :
  let s' := growth_step 1 (Seed.mk 40 40 5 0 0.05 "i") in
  ~ (Seed.life s' == 0.02 /\
     5 < Seed.size s' /\
     Seed.size s' < 5 + 0.3 * (1 - 5 / 150)).
Proof. intros s' (_ & _ & H). vm_compute in H. discriminate H. Qed.



(** C3 on the sample garden: the old seed is removed by the next frame and
    stays out. *)
Lemma frame_removes_expired_witness :
  wf garden /\ running garden = true /\
  0%nat ∈ seeds garden /\ heap garden !! 0%nat = Some old_seed /\
  exists w',
    sample_draw garden = Some (tt, w') /\
    (0%nat ∉ seeds w') /\
    forall es w'', sample_run es w' = Some (tt, w'') -> 0%nat ∉ seeds w''.
Proof.
  assert (running garden = true) as Hrun by reflexivity.
  assert (0%nat ∈ seeds garden) as Hin
      by (apply elem_of_cons; right; apply elem_of_cons; by left).
  assert (heap garden !! 0%nat = Some old_seed) as Hs by reflexivity.
  destruct (frame_removes_expired eighths sin_approx cos_approx sample_PI Js.expansion36
              garden 0%nat old_seed garden_wf Hrun Hin Hs)
    as (w' & E & _ & Hiff & Hnever).
  assert (0%nat ∉ seeds w') as Hout by (apply Hiff; left; qdecide).
  exact (conj garden_wf (conj Hrun (conj Hin (conj Hs
           (ex_intro _ w' (conj E (conj Hout (Hnever Hout)))))))).
Defined.

(** C4 at age 10, speed 1 and a draw of 0.5. *)
Lemma spawnCount_nonneg_witness :
  0 <= 10 /\ 0 < 1 /\ 0 <= 1 # 2 /\ 1 # 2 < 1 /\
  (0 <= spawnCount (1 # 2) 10 1)%Z.
Proof.
  assert (0 <= 10) as H1 by qdecide.
  assert (0 < 1) as H2 by qdecide.
  assert (0 <= 1 # 2) as H3 by qdecide.
  assert (1 # 2 < 1) as H4 by qdecide.
  exact (conj H1 (conj H2 (conj H3 (conj H4
           (spawnCount_nonneg (1 # 2) 10 1 H1 H2 H3 H4))))).
Defined.

(** C5 at the degenerate size 0. *)
Lemma spawn_alpha_range_witness :
  0 <= 0 /\ 0 <= 1 # 2 /\ 1 # 2 < 1 /\
  ~ 0 + 1 == 0 /\
  0 <= spawn_alpha (spawn_dist (1 # 2) 0) 0 /\
  spawn_alpha (spawn_dist (1 # 2) 0) 0 <= 0.8.
Proof.
  assert (0 <= 0) as H1 by qdecide.
  assert (0 <= 1 # 2) as H2 by qdecide.
  assert (1 # 2 < 1) as H3 by qdecide.
  exact (conj H1 (conj H2 (conj H3 (spawn_alpha_range (1 # 2) 0 H1 H2 H3)))).
Defined.



(** C7, the amended statement at [hueBase = 0.05], [life = 4.5], [k = 0],
    where the sine is about -0.9775: the hue is negative. *)
Lemma spawn_hue_spec_witness :
  0 <= 0.05 /\ 0.05 < 1 /\
  -1 <= sin_approx (4.5 + inject_Z (Z.of_nat 0)) /\
  sin_approx (4.5 + inject_Z (Z.of_nat 0)) <= 1 /\
  -20 <= spawn_hue sin_approx 0.05 4.5 0 /\
  spawn_hue sin_approx 0.05 4.5 0 < 0.
Proof.
  assert (0 <= 0.05) as H1 by qdecide.
  assert (0.05 < 1) as H2 by qdecide.
  assert (-1 <= sin_approx (4.5 + inject_Z (Z.of_nat 0))) as H3 by qdecide.
  assert (sin_approx (4.5 + inject_Z (Z.of_nat 0)) <= 1) as H4 by qdecide.
  destruct (spawn_hue_spec sin_approx 0.05 4.5 0 H1 H2 H3 H4)
    as (Hlo & _ & _ & _).
  assert (spawn_hue sin_approx 0.05 4.5 0 < 0) as Hneg by qdecide.
  exact (conj H1 (conj H2 (conj H3 (conj H4 (conj Hlo Hneg))))).
Defined.

(** C7 as stated fails: at [hueBase = 0.05], [life = 4.5], [k = 0] the hue
    is about -1.55, while the mathematical modulo is about 358.45. *)
Lemma spawn_hue_negative :
  let hue := spawn_hue sin_approx 0.05 4.5 0 in
  let h := 0.05 * 360 + sin_approx (4.5 + inject_Z (Z.of_nat 0)) * 20 in
  0 <= 0.05 /\ 0.05 < 1 /\ 0 <= 4.5 /\
  -1.56 < hue /\ hue < -1.55 /\
  358.44 < Js.modulo h 360 /\ Js.modulo h 360 < 358.45 /\
  ~ hue == Js.modulo h 360.
Proof. repeat split; qdecide. Qed.

(** C8 on the empty garden, with one render between the two clicks and a
    generator that repeats its draw: two objects, both in the population,
    with the same token. *)
Lemma plant_twice_same_place_witness :
  wf empty_garden /\ running empty_garden = true /\
  exists w2 l1 l2,
    (plantSeed eighths Js.expansion36 50 60;; renders eighths 1;;
     plantSeed eighths Js.expansion36 50 60) empty_garden = Some (tt, w2) /\
    l1 <> l2 /\ seeds w2 = [l2; l1] /\
    Seed.id <$> heap w2 !! l1 = Seed.id <$> heap w2 !! l2.
Proof.
  assert (running empty_garden = true) as Hrun by reflexivity.
  destruct (plant_twice_same_place eighths sin_approx cos_approx sample_PI
              Js.expansion36 empty_garden 50 60 1 2 empty_garden_wf Hrun)
    as (w2 & l1 & l2 & E & Hne & _ & _ & Hseeds & H1 & H2 & Hid & _).
  refine (conj empty_garden_wf (conj Hrun
            (ex_intro _ w2 (ex_intro _ l1 (ex_intro _ l2
               (conj E (conj Hne (conj Hseeds _)))))))).
  rewrite H1, H2. exact (f_equal Some (Hid eq_refl)).
Defined.

(** C8 as stated fails.  Whatever the engine prints, two seeds planted at
    the same place from equal draws get the same token.  And with two
    different third draws, [0.5 + 2^-50] and [0.5 + 2^-51], whose base-36
    digits differ from the tenth on, both tokens are [i000000]. *)
Lemma planted_twice_same_id :
  (forall print : Q -> string,
     match (plantSeed eighths print 50 60;; renders eighths 1;;
            plantSeed eighths print 50 60) empty_garden with
     | Some (_, w2) =>
         seeds w2 = [1%nat; 0%nat] /\
         is_Some (heap w2 !! 0%nat) /\
         Seed.id <$> heap w2 !! 0%nat = Seed.id <$> heap w2 !! 1%nat
     | None => False
     end) /\
  match (plantSeed close_draws Js.expansion36 50 60;; renders close_draws 1;;
         plantSeed close_draws Js.expansion36 50 60) empty_garden with
  | Some (_, w2) =>
      seeds w2 = [1%nat; 0%nat] /\
      ~ close_draws 2 == close_draws 6 /\
      Seed.id <$> heap w2 !! 0%nat = Some "i000000"%string /\
      Seed.id <$> heap w2 !! 1%nat = Some "i000000"%string
  | None => False
  end.
Proof.
  split.
  - intros print. vm_compute. repeat split. eexists. reflexivity.
  - vm_compute. repeat split. intros H. discriminate H.
Qed.

(** C9 on a canvas whose container has collapsed to 0 by 0. *)
Lemma handleResize_zero_area_witness :
  let w := set_cv (layout 0 0 sample_canvas) empty_garden in
  (clientWidth (cv w) == 0 \/ clientHeight (cv w) == 0) /\
  exists w',
    handleResize w = Some (tt, w') /\
    (width (cv w') == 0 \/ height (cv w') == 0).
Proof.
  intros w.
  assert (clientWidth (cv w) == 0 \/ clientHeight (cv w) == 0) as H
      by (left; reflexivity).
  destruct (handleResize_zero_area w H) as (w' & E & _ & _ & _ & Hz & _).
  exact (conj H (ex_intro _ w' (conj E Hz))).
Defined.

(** C9 as stated fails: a resize to a 0 by 0 container changes the backing
    buffer from 300 by 150 to 0 by 0. *)
Lemma resize_to_zero_area_changes_canvas :
  match handle eighths sin_approx cos_approx sample_PI Js.expansion36
               (Resize 0 0) empty_garden with
  | Some (_, w') =>
      width (cv empty_garden) == 300 /\ height (cv empty_garden) == 150 /\
      width (cv w') == 0 /\ height (cv w') == 0 /\
      ~ width (cv w') == width (cv empty_garden)
  | None => False
  end.
Proof. vm_compute. repeat split; try reflexivity. intros H. discriminate H. Qed.

(** C10 on a planted seed after three frames at slider speeds. *)
Lemma planted_seed_below_150_witness :
  0 <= 1 # 2 /\ 1 # 2 < 1 /\
  Forall (fun v => 0 < v /\ v <= 3) [3; 3; 1] /\
  Seed.size (advance (new_seed Js.expansion36 40 40
                               (1 # 2) (1 # 2) (1 # 2) (1 # 2))
                     [3; 3; 1]) < 150.
Proof.
  assert (0 <= 1 # 2) as H1 by qdecide.
  assert (1 # 2 < 1) as H2 by qdecide.
  assert (Forall (fun v => 0 < v /\ v <= 3) [3; 3; 1]) as H3
      by (repeat constructor; qdecide).
  destruct (planted_seed_below_150 Js.expansion36 40 40 (1 # 2) (1 # 2) (1 # 2) (1 # 2)
              [3; 3; 1] H1 H2 H3) as (Hlt & _).
  exact (conj H1 (conj H2 (conj H3 Hlt))).
Defined.

(** ** The engine on doubles

    The two runs above that refute C1 and C2 as stated, replayed with the
    rounding of binary64, and the runs on which the rounded results leave
    the exact ones. *)

(** From [life = 0], [size = 5] at speed 1: the age is the double 0.02 and
    the size is the double [5 + 0.3 * (1 - 5 / 150)], not a smaller one. *)
Example binary64_growth_step_from_5 :
  let s' := Binary64.growth_step 1 (Binary64.mk 0 5) in
  Binary64.life s' = 0.02%float /\
  (5 <? Binary64.size s')%float = true /\
  Binary64.size s' = (5 + 0.3 * (1 - 5 / 150))%float /\
  (Binary64.size s' <? 5 + 0.3 * (1 - 5 / 150))%float = false.
Proof. vm_compute. repeat split. Qed.

(** From [life = 0], [size = 5] at speed 5500: alive at size 164.5 after
    one step, smaller after the second. *)
Example binary64_size_shrinks_at_high_speed :
  let s1 := Binary64.growth_step 5500 (Binary64.mk 0 5) in
  let s2 := Binary64.growth_step 5500 s1 in
  Binary64.expired s1 = false /\
  Binary64.size s1 = 164.5%float /\
  (Binary64.size s2 <? Binary64.size s1)%float = true.
Proof. vm_compute. repeat split. Qed.

(** From [life = 0], [size = 160] at speed 1: alive and smaller after one
    step. *)
Example binary64_size_shrinks_above_150 :
  let s1 := Binary64.growth_step 1 (Binary64.mk 0 160) in
  Binary64.expired s1 = false /\
  (Binary64.size s1 <? 160)%float = true.
Proof. vm_compute. repeat split. Qed.

(** A seed planted at size 6.8 and grown at the top speed of the slider:
    over 5000 frames no step shrinks it, makes it younger or brings it to
    150. *)
Example binary64_steady_at_speed_3 :
  Binary64.steady 3 5000 (Binary64.mk 0 6.8) = true.
Proof. vm_compute. reflexivity. Qed.

(** Far above the slider the rounded size can pass 150 where the exact one
    stops at it: at speed 5000 the seed of size 6.8 is above 150 after
    one step, still alive, and shrinks at the next. *)
Example binary64_past_150_at_speed_5000 :
  let s1 := Binary64.growth_step 5000 (Binary64.mk 0 6.8) in
  let s2 := Binary64.growth_step 5000 s1 in
  Binary64.expired s1 = false /\
  (150 <? Binary64.size s1)%float = true /\
  (Binary64.size s2 <? Binary64.size s1)%float = true.
Proof. vm_compute. repeat split. Qed.

(** The age is a sum of rounded steps.  At speed 3 it passes 120 at frame
    2000, where the exact sum is 120: the seed is alive after 1999 frames
    and removed by the next one. *)
Example binary64_lifetime_at_speed_3 :
  let s := Binary64.mk 0 6.8 in
  Binary64.expired (Binary64.lived 3 1999 s) = false /\
  Binary64.expired (Binary64.lived 3 2000 s) = true /\
  (120 <? Binary64.life (Binary64.lived 3 2000 s))%float = true /\
  (Binary64.life (Binary64.lived 3 2000 s) <? 120.1)%float = true.
Proof. vm_compute. repeat split. Qed.

(** The products of [drawPixel] round too: at distance 0 the global alpha
    is the double just above 0.72, and the largest draw gives the
    lightness 55. *)
Example binary64_pixel_extremes :
  (0.72 <? Binary64.globalAlpha 0 5)%float = true /\
  (Binary64.globalAlpha 0 5 <? 0.73)%float = true /\
  Binary64.lightness 0.9999999999999999 = 55%float.
Proof. vm_compute. repeat split. Qed.

(** ** The further properties on the sample inputs *)

(** X1 on the young seed at speed 1. *)
Lemma growth_fixed_point_witness :
  0 < 1 /\
  Seed.size young_seed <= 150 /\
  Seed.life young_seed <= Seed.life (growth_step 1 young_seed) /\
  Seed.size young_seed <= Seed.size (growth_step 1 young_seed).
Proof.
  assert (0 < 1) as Hv by qdecide.
  destruct (growth_fixed_point 1 young_seed Hv) as (Hlife & Hgrow & _).
  assert (Seed.size young_seed <= 150) as Hs by qdecide.
  exact (conj Hv (conj Hs (conj Hlife (Hgrow Hs)))).
Defined.

(** X2 on the oldest seed a population can hold, at the top speed. *)
Lemma spawnCount_le_10_witness :
  1 # 2 < 1 /\ 120 <= 120 /\ 0 < 3 /\ 3 <= 3 /\
  (spawnCount (1 # 2) (120 + 0.02 * 3) 3 <= 10)%Z.
Proof.
  assert (1 # 2 < 1) as H1 by qdecide.
  assert (120 <= 120) as H2 by qdecide.
  assert (0 < 3) as H3 by qdecide.
  assert (3 <= 3) as H4 by qdecide.
  exact (conj H1 (conj H2 (conj H3 (conj H4
           (spawnCount_le_10 (1 # 2) 120 3 H1 H2 H3 H4))))).
Defined.

(** X3 at age 10 and speed 1. *)
Lemma spawnCount_zero_when_young_witness :
  0 <= 1 # 2 /\ 1 # 2 < 1 /\ 0 <= 10 /\ 10 < 20 /\ 0 < 1 /\ 1 <= 1 /\
  spawnCount (1 # 2) 10 1 = 0%Z.
Proof.
  assert (0 <= 1 # 2) as H1 by qdecide.
  assert (1 # 2 < 1) as H2 by qdecide.
  assert (0 <= 10) as H3 by qdecide.
  assert (10 < 20) as H4 by qdecide.
  assert (0 < 1) as H5 by qdecide.
  assert (1 <= 1) as H6 by qdecide.
  exact (conj H1 (conj H2 (conj H3 (conj H4 (conj H5 (conj H6
           (spawnCount_zero_when_young (1 # 2) 10 1 H1 H2 H3 H4 H5 H6))))))).
Defined.

(** X4 on the empty garden. *)
Lemma plantSeed_new_seed_witness :
  0 <= eighths (rng empty_garden) /\ eighths (rng empty_garden) < 1 /\
  0 <= eighths (1 + rng empty_garden) /\ eighths (1 + rng empty_garden) < 1 /\
  0 <= paletteSeed empty_garden /\ paletteSeed empty_garden < 1 /\
  exists w' s,
    plantSeed eighths Js.expansion36 50 60 empty_garden = Some (tt, w') /\
    seeds w' = [0%nat] /\ heap w' !! 0%nat = Some s /\
    2 <= Seed.size s /\ Seed.size s < 8.
Proof.
  assert (0 <= eighths (rng empty_garden)) as H1 by qdecide.
  assert (eighths (rng empty_garden) < 1) as H2 by qdecide.
  assert (0 <= eighths (1 + rng empty_garden)) as H3 by qdecide.
  assert (eighths (1 + rng empty_garden) < 1) as H4 by qdecide.
  assert (0 <= paletteSeed empty_garden) as H5 by qdecide.
  assert (paletteSeed empty_garden < 1) as H6 by qdecide.
  destruct (plantSeed_new_seed eighths Js.expansion36 50 60 empty_garden
              H1 H2 H3 H4 H5 H6)
    as (w' & s & E & Hseeds & Hs & _ & _ & Hlo & Hhi & _).
  exact (conj H1 (conj H2 (conj H3 (conj H4 (conj H5 (conj H6
           (ex_intro _ w' (ex_intro _ s
              (conj E (conj Hseeds (conj Hs (conj Hlo Hhi)))))))))))).
Defined.

(** X5 on the draw 0, printed as ["0"]: the token is empty. *)
Lemma id_token_shape_witness :
  let print := fun _ : Q => "0"%string in
  (String.length (print 0%Q) <= 2)%nat /\
  Seed.id (new_seed print 40 40 (1 # 2) (1 # 2) (1 # 2) 0) = EmptyString.
Proof.
  intros print.
  assert (String.length (print 0%Q) <= 2)%nat as H by (vm_compute; lia).
  exact (conj H (proj2 (id_token_shape print 40 40 (1 # 2) (1 # 2) (1 # 2) 0) H)).
Defined.

(** X6 on a touch event with two touch points. *)
Lemma handleCanvasDown_plants_one_witness :
  let e := mkPointer (Some [(50, 60); (70, 80)]) 0 0 in
  touches e = Some [(50, 60); (70, 80)] /\
  handleCanvasDown eighths Js.expansion36 e empty_garden =
  plantSeed eighths Js.expansion36 50 60 empty_garden.
Proof.
  intros e.
  assert (touches e = Some [(50, 60); (70, 80)]) as H by reflexivity.
  destruct (handleCanvasDown_plants_one eighths Js.expansion36 e empty_garden)
    as (_ & Htouch & _).
  exact (conj H (Htouch 50 60 [(70, 80)] H)).
Defined.

(** X7 on the young seed of the sample garden, two iterations. *)
Lemma spawn_loop_spec_witness :
  heap garden !! 1%nat = Some young_seed /\
  exists w',
    spawn_loop eighths sin_approx cos_approx sample_PI 2 1 0 garden
      = Some (tt, w') /\
    rng w' = 10%nat.
Proof.
  assert (heap garden !! 1%nat = Some young_seed) as Hs by reflexivity.
  destruct (spawn_loop_spec eighths sin_approx cos_approx sample_PI
              2 1%nat 0%nat garden young_seed Hs) as (w' & E & Hrng & _).
  exact (conj Hs (ex_intro _ w' (conj E Hrng))).
Defined.

(** X8 on the young seed of the sample garden, at the angle 0. *)
Lemma spawn_pixel_in_range_witness :
  heap garden !! 1%nat = Some young_seed /\ 2 <= Seed.size young_seed /\
  exists x y radius hue light alpha w',
    spawn_pixel zero_then_eighths sin_approx cos_approx sample_PI 1 0 garden
      = Some (tt, w') /\
    log w' = FillArc x y radius hue light alpha :: log garden /\
    40 - 5 <= x /\ x <= 40 + 5 /\
    45 <= light /\ light <= 55.
Proof.
  assert (heap garden !! 1%nat = Some young_seed) as Hs by reflexivity.
  assert (2 <= Seed.size young_seed) as Hsize by qdecide.
  assert (0 <= zero_then_eighths (1 + rng garden)) as H1 by qdecide.
  assert (zero_then_eighths (1 + rng garden) < 1) as H2 by qdecide.
  assert (0 <= zero_then_eighths (3 + rng garden)) as H3 by qdecide.
  assert (zero_then_eighths (3 + rng garden) < 1) as H4 by qdecide.
  assert (-1 <= cos_approx (zero_then_eighths (rng garden) * sample_PI * 2)) as H5
      by qdecide.
  assert (cos_approx (zero_then_eighths (rng garden) * sample_PI * 2) <= 1) as H6
      by qdecide.
  assert (-1 <= sin_approx (zero_then_eighths (rng garden) * sample_PI * 2)) as H7
      by qdecide.
  assert (sin_approx (zero_then_eighths (rng garden) * sample_PI * 2) <= 1) as H8
      by qdecide.
  destruct (spawn_pixel_in_range zero_then_eighths sin_approx cos_approx sample_PI
              1%nat 0%nat garden young_seed Hs Hsize H1 H2 H3 H4 H5 H6 H7 H8)
    as (x & y & radius & hue & light & alpha & w' & E & Hlog
        & Hx0 & Hx1 & _ & _ & Hl0 & Hl1 & _).
  exact (conj Hs (conj Hsize
           (ex_intro _ x (ex_intro _ y (ex_intro _ radius (ex_intro _ hue
              (ex_intro _ light (ex_intro _ alpha (ex_intro _ w'
                 (conj E (conj Hlog (conj Hx0 (conj Hx1
                    (conj Hl0 Hl1)))))))))))))).
Defined.

(** X9 on the sample garden, two iterations. *)
Lemma stars_spec_witness :
  (forall i, 0 <= eighths i /\ eighths i < 1) /\
  0 <= clientWidth (cv garden) /\ 0 <= clientHeight (cv garden) /\
  exists w' new,
    stars eighths 2 garden = Some (tt, w') /\
    log w' = new ++ log garden /\ (length new <= 2)%nat.
Proof.
  assert (forall i, 0 <= eighths i /\ eighths i < 1) as H1
      by (intros i; split; qdecide).
  assert (0 <= clientWidth (cv garden)) as H2 by qdecide.
  assert (0 <= clientHeight (cv garden)) as H3 by qdecide.
  destruct (stars_spec eighths 2 garden H1 H2 H3)
    as (w' & new & E & Hlog & Hlen & _).
  exact (conj H1 (conj H2 (conj H3
           (ex_intro _ w' (ex_intro _ new (conj E (conj Hlog Hlen))))))).
Defined.

(** X10 on a 300 by 150 canvas: 8 vertical and 4 horizontal segments. *)
Lemma drawGrid_segments_witness :
  (Z.to_nat (Qceiling (300 / 40)) <= 10)%nat /\
  (Z.to_nat (Qceiling (150 / 40)) <= 10)%nat /\
  length (grid_segments 10 300 150) = 12%nat.
Proof.
  assert (Z.to_nat (Qceiling (300 / 40)) <= 10)%nat as H1
      by (vm_compute; lia).
  assert (Z.to_nat (Qceiling (150 / 40)) <= 10)%nat as H2
      by (vm_compute; lia).
  destruct (drawGrid_segments 300 150 10 H1 H2) as (_ & _ & _ & _ & Hlen).
  exact (conj H1 (conj H2 Hlen)).
Defined.

(** X11 on the sample garden once paused. *)
Lemma paused_frames_do_nothing_witness :
  let w := set_running false garden in
  running w = false /\ sample_run (repeat Frame 3) w = Some (tt, w).
Proof.
  intros w.
  assert (running w = false) as H by reflexivity.
  exact (conj H (paused_frames_do_nothing eighths sin_approx cos_approx
                   sample_PI Js.expansion36 3 w H)).
Defined.

(** X13 on a palette re-roll in the sample garden. *)
Lemma controls_leave_seeds_witness :
  exists w',
    handle eighths sin_approx cos_approx sample_PI Js.expansion36 Palette garden
      = Some (tt, w') /\
    seeds w' = seeds garden /\ heap w' = heap garden.
Proof.
  exact (controls_leave_seeds eighths sin_approx cos_approx sample_PI Js.expansion36
           Palette garden I).
Defined.

(** X15 on the sample garden. *)
Lemma clear_is_final_witness :
  wf garden /\
  exists w1, clear garden = Some (tt, w1) /\ seeds w1 = [].
Proof.
  destruct (clear_is_final eighths sin_approx cos_approx sample_PI Js.expansion36
              garden garden_wf) as (w1 & E & Hs & _).
  exact (conj garden_wf (ex_intro _ w1 (conj E Hs))).
Defined.

(** X16 on the empty garden. *)
Lemma run_never_fails_witness :
  seeds empty_garden = [] /\ heap empty_garden = ∅ /\
  exists w',
    sample_run [Plant 50 60; Frame; Clear; Frame; Plant 10 10] empty_garden
      = Some (tt, w') /\ wf w'.
Proof.
  assert (seeds empty_garden = []) as H1 by reflexivity.
  assert (heap empty_garden = ∅) as H2 by reflexivity.
  exact (conj H1 (conj H2
           (run_never_fails eighths sin_approx cos_approx sample_PI Js.expansion36
              empty_garden [Plant 50 60; Frame; Clear; Frame; Plant 10 10]
              H1 H2))).
Defined.

(** X17 on the sample garden. *)
Lemma frame_keeps_order_witness :
  wf garden /\ running garden = true /\
  exists w',
    sample_draw garden = Some (tt, w') /\
    seeds w' `sublist_of` seeds garden.
Proof.
  assert (running garden = true) as Hrun by reflexivity.
  destruct (frame_keeps_order eighths sin_approx cos_approx sample_PI
              garden garden_wf Hrun) as (w' & E & Hsub & _).
  exact (conj garden_wf (conj Hrun (ex_intro _ w' (conj E Hsub)))).
Defined.

(** X18 on the young seed of the sample garden, through a frame, a palette
    re-roll, a click and another frame. *)
Lemma seed_identity_is_kept_witness :
  wf garden /\ heap garden !! 1%nat = Some young_seed /\
  exists w' s',
    sample_run [Frame; Palette; Plant 50 60; Frame] garden = Some (tt, w') /\
    heap w' !! 1%nat = Some s' /\ same_identity young_seed s'.
Proof.
  assert (heap garden !! 1%nat = Some young_seed) as Hs by reflexivity.
  destruct (run_wf eighths sin_approx cos_approx sample_PI Js.expansion36
              [Frame; Palette; Plant 50 60; Frame] garden garden_wf)
    as (w' & E & _).
  destruct (seed_identity_is_kept eighths sin_approx cos_approx sample_PI Js.expansion36
              _ garden w' 1%nat young_seed garden_wf Hs E) as (s' & Hs' & Hid).
  exact (conj garden_wf (conj Hs
           (ex_intro _ w' (ex_intro _ s' (conj E (conj Hs' Hid)))))).
Defined.

